(** * Website graph analyzer: crawl scheduler, graph builder, classifier, stats

    Shallow embedding of [website_graph.py] (the URL normalizer, the
    breadth-first crawler, the graph classifier and the statistics) and of
    the classifier and statistics of [web_diver.py], with the properties of
    the specification stated and proved over it.

    Conventions.
    - Python [str] is [string]; Python [int] is [Z]; a Python [set] of strings
      is a [gset string]; the [deque] of [(url, depth)] pairs is a list whose
      head is the left end.
    - Code that can raise returns a [result]; the exception classes that the
      code distinguishes are the constructors of [exn].
    - The network (requests, robots.txt) is an explicit [World] that every
      call takes and returns.  The libraries [urllib.parse], [requests],
      [bs4] and [urllib.robotparser] are not part of the repository and are
      parameters ([Urllib], [Net]).
    - A networkx graph is its node set and its edge set; the connectivity
      tests are computed on them and raise what networkx raises. *)

From Stdlib Require Import ZArith QArith_base Ascii String List Lia.
From stdpp Require Import base gmap strings list.

Local Open Scope string_scope.
Local Open Scope Z_scope.

(** ** Exceptions *)

Inductive exn : Type :=
  | RequestException        (* requests.get / raise_for_status *)
  | ParserException         (* anything raised in extract_links after the request *)
  | RobotsException         (* anything RobotFileParser may raise *)
  | NetworkXError
  | NetworkXPointlessConcept
  | NetworkXNotImplemented
  | ZeroDivisionError.

Inductive result (A : Type) : Type :=
  | Ok (a : A)
  | Raise (e : exn).
Arguments Ok {A} a.
Arguments Raise {A} e.

#[global] Instance result_ret : MRet result := λ A a, Ok a.
#[global] Instance result_bind : MBind result := λ A B k r,
  match r with
  | Ok a => k a
  | Raise e => Raise e
  end.

#[global] Instance exn_eq_dec : EqDecision exn.
Proof. solve_decision. Defined.

(** ** String operations of the Python standard library used by the code *)

Module Str.

(** [s.split(c)[0]]: the part of [s] before the first [c]. *)
Fixpoint split_head (c : ascii) (s : string) : string :=
  match s with
  | EmptyString => EmptyString
  | String a s' => if Ascii.eqb a c then EmptyString
                   else String a (split_head c s')
  end.

(** [s.rstrip(chars)]: drop every trailing character that satisfies [p]. *)
Fixpoint rstrip (p : ascii → bool) (s : string) : string :=
  match s with
  | EmptyString => EmptyString
  | String a s' =>
      match rstrip p s' with
      | EmptyString => if p a then EmptyString else String a EmptyString
      | r => String a r
      end
  end.

(** [s.lstrip(chars)]. *)
Fixpoint lstrip (p : ascii → bool) (s : string) : string :=
  match s with
  | EmptyString => EmptyString
  | String a s' => if p a then lstrip p s' else s
  end.

(** Python's [str.isspace] on the code points below 256, which is what an
    [ascii] stands for: TAB..CR, FS..US, space, NEL (133) and the no-break
    space (160). *)
Definition is_space (a : ascii) : bool :=
  let n := nat_of_ascii a in
  ((9 <=? n)%nat && (n <=? 13)%nat) || ((28 <=? n)%nat && (n <=? 32)%nat)
  || (n =? 133)%nat || (n =? 160)%nat.

(** [s.strip()]. *)
Definition strip (s : string) : string := lstrip is_space (rstrip is_space s).

(** [s.startswith(p)]. *)
Definition startswith (p s : string) : bool := String.prefix p s.

(** [s.endswith(c)] for a one-character [c]. *)
Fixpoint ends_with (c : ascii) (s : string) : bool :=
  match s with
  | EmptyString => false
  | String a EmptyString => Ascii.eqb a c
  | String _ s' => ends_with c s'
  end.

(** [s[:-1]]: [s] without its last character. *)
Fixpoint drop_last (s : string) : string :=
  match s with
  | EmptyString => EmptyString
  | String _ EmptyString => EmptyString
  | String a s' => String a (drop_last s')
  end.

(** [c in s]. *)
Fixpoint contains (c : ascii) (s : string) : bool :=
  match s with
  | EmptyString => false
  | String a s' => Ascii.eqb a c || contains c s'
  end.

(** [c * n]. *)
Fixpoint replicate (n : nat) (c : ascii) : string :=
  match n with
  | O => EmptyString
  | S n' => String c (replicate n' c)
  end.

End Str.

Definition is_slash (a : ascii) : bool := Ascii.eqb a "/"%char.

(** ** The URL library ([urllib.parse]) as a parameter

    The three functions give the values of [urljoin] and [urlparse] where
    these return.  On some strings (["http://[a"]: invalid IPv6 URL) they
    raise [ValueError] instead.
    - The seed is parsed by [build_website_graph] outside every [try]: see
      [WebsiteGraph.build_website_graph_or_raise].
    - Inside [extract_links], [urljoin] parses the href.  Its exception
      leaves the function like one of the page parser and meets the same
      [except] in [build_website_graph], so that the page has no links: it
      is one of the exceptions of [anchor_hrefs] of a [Net].
    - In the link loop of [build_website_graph], [urlparse] is applied to
      the links of [extract_links], which [urljoin] has put together from
      parts that it parsed. *)

Record Urllib : Type := {
  urljoin : string → string → string;     (* urljoin(base, url) *)
  url_scheme : string → string;           (* urlparse(url).scheme *)
  url_netloc : string → string;           (* urlparse(url).netloc *)
}.


(** ** Graphs ([networkx.Graph] and [networkx.DiGraph])

    A graph is its node set and its edge set.  In a directed graph an edge
    is the ordered pair [(u, v)]; an undirected graph keeps one pair per
    edge, in the orientation in which it was first added. *)

Record Graph : Type := {
  directed : bool;
  nodes : gset string;
  edges : gset (string * string);
}.

(** [nx.DiGraph()] and [nx.Graph()] *)
Definition DiGraph : Graph := {| directed := true; nodes := ∅; edges := ∅ |}.
Definition UGraph : Graph := {| directed := false; nodes := ∅; edges := ∅ |}.

(** [G.add_node(u)]: no effect when [u] is already a node. *)
Definition add_node (g : Graph) (u : string) : Graph :=
  {| directed := directed g; nodes := {[u]} ∪ nodes g; edges := edges g |}.

(** [G.add_edge(u, v)]: both end points become nodes. *)
Definition add_edge (g : Graph) (u v : string) : Graph :=
  {| directed := directed g;
     nodes := {[u; v]} ∪ nodes g;
     edges := if negb (directed g) && bool_decide ((v, u) ∈ edges g)
              then edges g else {[(u, v)]} ∪ edges g |}.

(** [G.number_of_nodes()], [len(G)], [len(G.nodes)] *)
Definition number_of_nodes (g : Graph) : nat := size (nodes g).

(** [G.number_of_edges()], [len(G.edges)] *)
Definition number_of_edges (g : Graph) : nat := size (edges g).

(** [G.degree(n)]: the number of edge ends at [n]; in a directed graph this is
    in-degree plus out-degree, and a self-loop counts twice. *)
Definition degree (g : Graph) (n : string) : nat :=
  (size (filter (λ e, e.1 = n) (edges g)) + size (filter (λ e, e.2 = n) (edges g)))%nat.

(** [sum(dict(G.degree()).values())] *)
Definition sum_of_degrees (g : Graph) : nat :=
  foldr (λ n acc, (degree g n + acc)%nat) 0%nat (elements (nodes g)).

(** [G.to_undirected()].  The code calls it only on a graph that is
    undirected already; the result is then a copy of the graph. *)
Definition to_undirected (g : Graph) : Graph :=
  {| directed := false; nodes := nodes g; edges := edges g |}.

(** *** Connectivity, as networkx computes it *)

(** The nodes one edge away from [S], following the edges of [E]. *)
Definition successors (E : gset (string * string)) (S : gset string) : gset string :=
  set_map snd (filter (λ e, e.1 ∈ S) E).

(** The nodes reachable from [s] in at most [k] steps. *)
Definition reach (E : gset (string * string)) (k : nat) (s : string) : gset string :=
  Nat.iter k (λ S, S ∪ successors E S) {[s]}.

(** Every node reaches every node along [E]. *)
Definition all_reach_all (V : gset string) (E : gset (string * string)) : bool :=
  bool_decide (set_Forall (λ s, V ⊆ reach E (size V) s) V).

Definition symmetric_closure (E : gset (string * string)) : gset (string * string) :=
  E ∪ set_map (λ e, (e.2, e.1)) E.

(** [nx.is_strongly_connected(G)]: not implemented for undirected graphs;
    raises [NetworkXPointlessConcept] on the null graph. *)
Definition nx_is_strongly_connected (g : Graph) : result bool :=
  if negb (directed g) then Raise NetworkXNotImplemented
  else if bool_decide (number_of_nodes g = 0%nat) then Raise NetworkXPointlessConcept
  else Ok (all_reach_all (nodes g) (edges g)).

(** [nx.is_weakly_connected(G)] *)
Definition nx_is_weakly_connected (g : Graph) : result bool :=
  if negb (directed g) then Raise NetworkXNotImplemented
  else if bool_decide (number_of_nodes g = 0%nat) then Raise NetworkXPointlessConcept
  else Ok (all_reach_all (nodes g) (symmetric_closure (edges g))).

(** [nx.is_connected(G)]: not implemented for directed graphs; raises
    [NetworkXPointlessConcept] on the null graph. *)
Definition nx_is_connected (g : Graph) : result bool :=
  if directed g then Raise NetworkXNotImplemented
  else if bool_decide (number_of_nodes g = 0%nat) then Raise NetworkXPointlessConcept
  else Ok (all_reach_all (nodes g) (symmetric_closure (edges g))).

(** The remaining predicates are only consulted on undirected graphs that
    are not null; they are parameters of the development. *)
Record Shapes : Type := {
  nx_is_tree : Graph → bool;             (* nx.is_tree(G) *)
  nx_is_bipartite : Graph → bool;        (* nx.is_bipartite(G) *)
  nx_has_cycle_basis : Graph → bool;     (* bool(nx.cycle_basis(G)) *)
}.

(** ** Classification labels: the strings that [classify_graph] returns,
    under the names the specification gives them *)

Definition label : Type := string.

Definition STRONGLY_CONNECTED_DIRECTED : label := "Strongly Connected Directed Graph".
Definition WEAKLY_CONNECTED_DIRECTED : label := "Weakly Connected Directed Graph".
Definition DISCONNECTED_DIRECTED : label := "Disconnected Directed Graph".
Definition DIRECTED_UNKNOWN : label := "Directed Graph (connectivity not determined)".
Definition EMPTY : label := "Empty Graph".

(** A [try: body except cls: handler] block. *)
Definition try_except {A : Type} (body : result A) (cls : exn) (handler : result A) : result A :=
  match body with
  | Ok a => Ok a
  | Raise e => if decide (e = cls) then handler else Raise e
  end.

(** ** The network as a parameter

    [requests_get w url user_agent timeout] is
    [requests.get(url, headers={"User-Agent": user_agent}, timeout=timeout)]
    followed by [raise_for_status()]: the page, or the exception raised.
    [anchor_hrefs page] is the list of [a['href']] for the anchors that
    [BeautifulSoup(resp.text, "html.parser").find_all('a', href=True)] yields,
    or the exception that leaves [extract_links] after the request: one of
    BeautifulSoup, or the [ValueError] of [urljoin] on an href of the page
    that does not parse.
    [robots_can_fetch w robots_url user_agent url] reads [robots_url] with a
    [RobotFileParser] and asks [can_fetch(user_agent, url)]. *)

Record Net (World Page : Type) : Type := {
  requests_get : World → string → string → Z → result Page * World;
  anchor_hrefs : Page → result (list string);
  robots_can_fetch : World → string → string → string → result bool * World;
}.
Arguments requests_get {World Page} _ _ _ _ _.
Arguments anchor_hrefs {World Page} _ _.
Arguments robots_can_fetch {World Page} _ _ _ _ _.

(** ** The pyvis network ([pyvis.network.Network]) *)

Record NetNode : Type := {
  node_id : string;
  node_label : string;
  node_title : string;
}.

Record Network : Type := {
  net_height : string;
  net_width : string;
  net_directed : bool;
  net_nodes : list NetNode;
  net_edges : list (string * string);
  net_physics : bool;
}.

(** [Network(height=..., width=..., directed=...)] *)
Definition new_network (height width : string) (is_directed : bool) : Network :=
  {| net_height := height; net_width := width; net_directed := is_directed;
     net_nodes := []; net_edges := []; net_physics := true |}.

(** [net.get_nodes()] *)
Definition net_node_ids (net : Network) : list string := node_id <$> net_nodes net.

(** [net.add_node(n, label=..., title=...)]: an id that the network already
    has is not added again. *)
Definition net_add_node (net : Network) (n label title : string) : Network :=
  if bool_decide (n ∈ net_node_ids net) then net
  else {| net_height := net_height net; net_width := net_width net;
          net_directed := net_directed net;
          net_nodes := net_nodes net ++ [{| node_id := n; node_label := label;
                                            node_title := title |}];
          net_edges := net_edges net; net_physics := net_physics net |}.

(** [net.add_edge(u, v)]: both ends must be nodes of the network, or the
    assertion of pyvis fails ([None]); an undirected network does not take
    an edge that it has in either direction. *)
Definition net_add_edge (net : Network) (u v : string) : option Network :=
  if bool_decide (u ∈ net_node_ids net) && bool_decide (v ∈ net_node_ids net) then
    if negb (net_directed net)
       && (bool_decide ((u, v) ∈ net_edges net) || bool_decide ((v, u) ∈ net_edges net))
    then Some net
    else Some {| net_height := net_height net; net_width := net_width net;
                 net_directed := net_directed net; net_nodes := net_nodes net;
                 net_edges := net_edges net ++ [(u, v)];
                 net_physics := net_physics net |}
  else None.

(** [net.toggle_physics(status)] *)
Definition net_toggle_physics (net : Network) (status : bool) : Network :=
  {| net_height := net_height net; net_width := net_width net;
     net_directed := net_directed net; net_nodes := net_nodes net;
     net_edges := net_edges net; net_physics := status |}.

Module WebsiteGraph.

Definition USER_AGENT : string :=
  "website-graph-analyzer/1.0 (+https://github.com/yourname)".

Section Normalizer.
Variable lib : Urllib.

(** [is_valid_scheme(url)] *)
Definition is_valid_scheme (url : string) : bool :=
  bool_decide (url_scheme lib url = "http")
  || bool_decide (url_scheme lib url = "https").

(** The second line of [normalize_url]: [joined.rstrip('/')]. *)
Definition strip_trailing_slashes (joined : string) : string :=
  Str.rstrip is_slash joined.

(** [normalize_url(base, link)] *)
Definition normalize_url (base link : string) : string :=
  let joined := urljoin lib base (Str.split_head "#"%char link) in
  strip_trailing_slashes joined.

End Normalizer.

Section Crawler.
Context {World Page : Type}.
Variable lib : Urllib.
Variable net : Net World Page.

(** The test [href.startswith(('mailto:', 'javascript:', 'tel:'))]. *)
Definition skipped_href (href : string) : bool :=
  Str.startswith "mailto:" href || Str.startswith "javascript:" href
  || Str.startswith "tel:" href.

(** The [for a in soup.find_all(...)] loop of [extract_links]. *)
Fixpoint collect_links (url : string) (hrefs : list string) : list string :=
  match hrefs with
  | [] => []
  | h :: rest =>
      let href := Str.strip h in
      if skipped_href href then collect_links url rest
      else normalize_url lib url href :: collect_links url rest
  end.

(** [extract_links(url)], with its default [timeout=5]: a failed request
    gives [[]]; an exception of the parser propagates to the caller. *)
Definition extract_links (w : World) (url : string) : result (list string) * World :=
  match requests_get net w url USER_AGENT 5 with
  | (Raise _, w') => (Ok [], w')
  | (Ok page, w') => (hrefs ← anchor_hrefs net page; Ok (collect_links url hrefs), w')
  end.

(** [allowed_by_robots(url)]: any exception means "allowed". *)
Definition allowed_by_robots (w : World) (url : string) : bool * World :=
  let robots_url := url_scheme lib url +:+ "://" +:+ url_netloc lib url +:+ "/robots.txt" in
  match robots_can_fetch net w robots_url USER_AGENT url with
  | (Ok b, w') => (b, w')
  | (Raise _, w') => (true, w')
  end.

(** The variables of [build_website_graph] that the loop changes, the
    network, and [enqueued], a history variable that the code does not have:
    the URLs put on the queue so far, oldest first.  No other field is
    computed from it. *)
Record state : Type := {
  G : Graph;
  seen : gset string;
  q : list (string * Z);
  pages_crawled : Z;
  world : World;
  enqueued : list string;
}.

Section Loop.
Variables (max_pages max_depth : Z) (same_domain : bool) (domain : string).

(** One pass of [for link in links] for the page [url] found at [depth]. *)
Definition visit_link (url : string) (depth : Z) (st : state) (link : string) : state :=
  if negb (is_valid_scheme lib link) then st
  else if same_domain && negb (bool_decide (url_netloc lib link = domain)) then st
  else
    let g := add_edge (G st) url link in
    if negb (bool_decide (link ∈ seen st)) && (depth + 1 <=? max_depth)
       && (pages_crawled st <? max_pages)
    then {| G := g; seen := {[link]} ∪ seen st; q := q st ++ [(link, depth + 1)];
            pages_crawled := pages_crawled st; world := world st;
            enqueued := enqueued st ++ [link] |}
    else {| G := g; seen := seen st; q := q st;
            pages_crawled := pages_crawled st; world := world st;
            enqueued := enqueued st |}.

Definition for_links (url : string) (depth : Z) (links : list string) (st : state) : state :=
  fold_left (visit_link url depth) links st.

(** The state in which a crawled page enters its link loop. *)
Definition page_registered (st : state) (url : string) (rest : list (string * Z))
    (w : World) : state :=
  {| G := add_node (G st) url; seen := seen st; q := rest;
     pages_crawled := pages_crawled st + 1; world := w;
     enqueued := enqueued st |}.

(** What one evaluation of the [while] condition and body does: the loop
    is left ([Done]), the entry is dropped by a [continue] ([Skipped]), or
    the page is crawled ([Crawled]). *)
Inductive outcome : Type :=
  | Done
  | Skipped (st : state)
  | Crawled (st : state).

Definition iteration (st : state) : outcome :=
  match q st with
  | [] => Done
  | (url, depth) :: rest =>
      if negb (pages_crawled st <? max_pages) then Done
      else if depth >? max_depth then
        Skipped {| G := G st; seen := seen st; q := rest;
                   pages_crawled := pages_crawled st; world := world st;
                   enqueued := enqueued st |}
      else
        let '(allowed, w1) := allowed_by_robots (world st) url in
        if negb allowed then
          Skipped {| G := G st; seen := seen st; q := rest;
                     pages_crawled := pages_crawled st; world := w1;
                     enqueued := enqueued st |}
        else
          let '(r, w2) := extract_links w1 url in
          let links := match r with Ok l => l | Raise _ => [] end in
          Crawled (for_links url depth links (page_registered st url rest w2))
  end.

(** The [while] loop.  It ends because a crawled page uses up one unit of
    the page budget and a skipped entry shortens the queue; the two
    counters [budget] and [k] follow that order.  [while_loop] starts them
    at the values that are enough (see [while_loop_finished]). *)
Fixpoint loop_from (budget : nat) : nat → state → state :=
  fix drain (k : nat) (st : state) : state :=
    match iteration st with
    | Done => st
    | Skipped st' =>
        match k with
        | S k' => drain k' st'
        | O => st'
        end
    | Crawled st' =>
        match budget with
        | S budget' => loop_from budget' (length (q st')) st'
        | O => st'
        end
    end.

Definition while_loop (st : state) : state :=
  loop_from (Z.to_nat (max_pages - pages_crawled st)) (length (q st)) st.

(** The states the loop passes through, seen at the top of the [while]. *)
Inductive reachable (st0 : state) : state → Prop :=
  | reachable_start : reachable st0 st0
  | reachable_skip st st' :
      reachable st0 st → iteration st = Skipped st' → reachable st0 st'
  | reachable_crawl st st' :
      reachable st0 st → iteration st = Crawled st' → reachable st0 st'.

(** *** The invariants of the loop *)

(** Every queued entry has a depth between 0 and [max_depth]. *)
Definition queue_depths_ok (st : state) : Prop :=
  Forall (λ e : string * Z, 0 ≤ e.2 ≤ max_depth) (q st).

(** The history of the queue has no repetition and holds the same URLs as
    [seen]; the queue is the end of the history: the entries not taken from
    the queue yet. *)
Definition seen_is_history (st : state) : Prop :=
  NoDup (enqueued st)
  ∧ (∀ u, u ∈ enqueued st ↔ u ∈ seen st)
  ∧ ∃ popped, enqueued st = (popped ++ (q st).*1)%list.

(** Every edge leads to a URL that passed the scheme test and, with
    [same_domain], the host test. *)
Definition edges_accepted (st : state) : Prop :=
  ∀ u v, (u, v) ∈ edges (G st) →
    is_valid_scheme lib v = true
    ∧ (same_domain = true → url_netloc lib v = domain).

(** [crawled] is the set of the pages crawled so far: there are
    [pages_crawled] of them, all nodes of the graph; every edge starts at one
    of them, and every node is one of them or the target of an edge.  They
    have been seen and are no longer on the queue. *)
Definition crawled_pages (st : state) (crawled : gset string) : Prop :=
  Z.of_nat (size crawled) = pages_crawled st
  ∧ crawled ⊆ nodes (G st)
  ∧ (∀ u v, (u, v) ∈ edges (G st) → u ∈ crawled)
  ∧ (∀ u, u ∈ nodes (G st) → u ∈ crawled ∨ ∃ v, (v, u) ∈ edges (G st))
  ∧ crawled ⊆ seen st
  ∧ (∀ u d, (u, d) ∈ q st → u ∉ crawled).

Definition budget_kept (st : state) : Prop :=
  directed (G st) = true
  ∧ pages_crawled st ≤ Z.max 0 max_pages
  ∧ NoDup (q st).*1
  ∧ (∀ u d, (u, d) ∈ q st → u ∈ seen st)
  ∧ ∃ crawled, crawled_pages st crawled.

End Loop.

(** The state before the loop. *)
Definition initial_state (start_url : string) (w : World) : state :=
  {| G := DiGraph; seen := {[start_url]}; q := [(start_url, 0)];
     pages_crawled := 0; world := w; enqueued := [start_url] |}.

(** The loop of [build_website_graph] run to its end, from the world [w],
    for a seed on which [urlparse] returns (for the other seeds see
    [build_website_graph_or_raise]).  [time.sleep(delay)] changes no variable
    and is left out. *)
Definition crawl (start_url : string) (max_pages max_depth : Z) (same_domain : bool)
    (w : World) : state :=
  let start_url := normalize_url lib start_url EmptyString in
  let domain := url_netloc lib start_url in
  while_loop max_pages max_depth same_domain domain (initial_state start_url w).

(** The graph that [build_website_graph(start_url, max_pages, max_depth,
    same_domain)] returns, for a seed on which [urlparse] returns. *)
Definition build_website_graph (start_url : string) (max_pages max_depth : Z)
    (same_domain : bool) (w : World) : Graph :=
  G (crawl start_url max_pages max_depth same_domain w).

(** The states that a run of [build_website_graph] passes through, seen at
    the top of the [while]. *)
Definition passes_through (start_url : string) (max_pages max_depth : Z)
    (same_domain : bool) (w : World) (st : state) : Prop :=
  let start_url := normalize_url lib start_url EmptyString in
  let domain := url_netloc lib start_url in
  reachable max_pages max_depth same_domain domain (initial_state start_url w) st.

End Crawler.

(** Two states, possibly over different networks, that agree on everything
    but the network. *)
Definition same_run {W1 W2 : Type} (st1 : @state W1) (st2 : @state W2) : Prop :=
  G st1 = G st2 ∧ seen st1 = seen st2 ∧ q st1 = q st2
  ∧ pages_crawled st1 = pages_crawled st2 ∧ enqueued st1 = enqueued st2.

(** Related states take the same branch of the loop body and stay related. *)
Definition same_outcome {W1 W2 : Type} (o1 : @outcome W1) (o2 : @outcome W2) : Prop :=
  match o1, o2 with
  | Done, Done => True
  | Skipped a, Skipped b => same_run a b
  | Crawled a, Crawled b => same_run a b
  | _, _ => False
  end.

Section Classifier.
Variable shapes : Shapes.

(** [classify_graph(G)] of [website_graph.py] *)
Definition classify_graph (g : Graph) : result label :=
  if directed g then
    try_except
      (sc ← nx_is_strongly_connected g;
       if sc : bool then Ok STRONGLY_CONNECTED_DIRECTED
       else wc ← nx_is_weakly_connected g;
            if wc : bool then Ok WEAKLY_CONNECTED_DIRECTED
            else Ok DISCONNECTED_DIRECTED)
      NetworkXError
      (Ok DIRECTED_UNKNOWN)
  else
    if bool_decide (number_of_nodes g = 0%nat) then Ok EMPTY
    else
      c ← nx_is_connected (to_undirected g);
      if c : bool then
        if nx_is_tree shapes (to_undirected g) then Ok "Tree"
        else if nx_is_bipartite shapes (to_undirected g) then Ok "Bipartite Connected Graph"
        else Ok "Connected Graph"
      else
        if nx_has_cycle_basis shapes (to_undirected g) then Ok "Cyclic Graph"
        else Ok "Acyclic Graph".

(** The dictionary that [graph_stats] returns.  [average_degree] is the
    exact quotient; Python rounds it to the nearest float. *)
Record Stats : Type := {
  classification : label;
  stat_nodes : nat;
  stat_edges : nat;
  average_degree : Q;
}.

(** [graph_stats(G)] of [website_graph.py] *)
Definition graph_stats (g : Graph) : result Stats :=
  let n := number_of_nodes g in
  let m := number_of_edges g in
  let avg_deg :=
    if bool_decide (n ≠ 0%nat)
    then Qmake (Z.of_nat (sum_of_degrees g)) (Pos.of_nat n)
    else Qmake 0 1 in
  c ← classify_graph g;
  Ok {| classification := c; stat_nodes := n; stat_edges := m;
        average_degree := avg_deg |}.

End Classifier.
(** *** The seed that [urlparse] rejects, and failures that are absorbed *)

(** How [build_website_graph] ends: with the [ValueError] of
    [urlparse(start_url)] in its second line, or with the graph. *)
Inductive build_outcome : Type :=
  | ValueError
  | Returned (g : Graph).

(** [build_website_graph(start_url, max_pages, max_depth, same_domain)] with
    the exception of its second line: [parses u] tells whether [urlparse(u)]
    returns.  The first line joins [start_url] with the empty string, for
    which [urljoin] returns its base without parsing it.  The result comes with the state of the network. *)
Definition build_website_graph_or_raise {World Page : Type} (parses : string → bool)
    (lib : Urllib) (net : Net World Page) (start_url : string)
    (max_pages max_depth : Z) (same_domain : bool) (w : World) : build_outcome * World :=
  let seed := normalize_url lib start_url EmptyString in
  if parses seed then
    let st := crawl lib net start_url max_pages max_depth same_domain w in
    (Returned (G st), world st)
  else (ValueError, w).



(** The label of a node in [to_pyvis]:
    [n if len(n) <= 60 else n[:57] + "..."]. *)
Definition short_label (n : string) : string :=
  if (String.length n <=? 60)%nat then n else String.substring 0 57 n +:+ "...".

(** The two loops of [to_pyvis].  The nodes and the edges of the graph are
    taken in the order of [elements]. *)
Definition add_all_nodes (net : Network) (ns : list string) : Network :=
  fold_left (λ net n, net_add_node net n (short_label n) n) ns net.

Fixpoint add_all_edges (net : Network) (es : list (string * string)) : option Network :=
  match es with
  | [] => Some net
  | (u, v) :: rest =>
      match net_add_edge net u v with
      | Some net' => add_all_edges net' rest
      | None => None
      end
  end.

(** [to_pyvis(G, height=..., width=...)]; [None] is the failed assertion
    of [add_edge]. *)
Definition to_pyvis (g : Graph) (height width : string) : option Network :=
  let net := new_network height width (directed g) in
  let net := add_all_nodes net (elements (nodes g)) in
  match add_all_edges net (elements (edges g)) with
  | Some net => Some (net_toggle_physics net true)
  | None => None
  end.

(** A URL that the link loop of a crawl from [seed] lets through: it has a
    valid scheme, with [same_domain] the host of the seed, and no slash at
    its end. *)
Definition let_through (lib : Urllib) (same_domain : bool) (seed u : string) : Prop :=
  is_valid_scheme lib u = true
  ∧ (same_domain = true → url_netloc lib u = url_netloc lib seed)
  ∧ Str.ends_with "/"%char u = false.

(** The edge relation of a graph: [u] links to [v]. *)
Definition links_to (g : Graph) (u v : string) : Prop := (u, v) ∈ edges g.

End WebsiteGraph.

Module WebDiver.

Section Classifier.
Variable shapes : Shapes.

(** [classify_graph(G)] of [web_diver.py]: the five networkx queries are
    evaluated up front, in this order. *)
Definition classify_graph (g : Graph) : result label :=
  let is_directed := directed g in
  is_connected ← nx_is_connected g;
  let is_bipartite := nx_is_bipartite shapes g in
  let is_tree := nx_is_tree shapes g in
  let is_cyclic := nx_has_cycle_basis shapes g in
  if is_directed then
    sc ← nx_is_strongly_connected g;
    if sc : bool then Ok STRONGLY_CONNECTED_DIRECTED
    else wc ← nx_is_weakly_connected g;
         if wc : bool then Ok WEAKLY_CONNECTED_DIRECTED
         else Ok DISCONNECTED_DIRECTED
  else if is_connected : bool then
    if is_bipartite then Ok "Bipartite Connected Graph"
    else if is_tree then Ok "Tree"
    else Ok "Connected Forest Graph"
  else if is_cyclic then Ok "Cyclic Graph"
  else Ok "Acyclical Graph".

(** Python's [a / b] on integers. *)
Definition true_div (a b : nat) : result Q :=
  if bool_decide (b = 0%nat) then Raise ZeroDivisionError
  else Ok (Qmake (Z.of_nat a) (Pos.of_nat b)).

(** The rows of [metrics_table] below its header. *)
Record Metrics : Type := {
  metric_nodes : nat;
  metric_edges : nat;
  metric_average_degree : Q;
}.

(** [graph_stats(G)] of [web_diver.py] *)
Definition graph_stats (g : Graph) : result (label * Metrics) :=
  c ← classify_graph g;
  avg ← true_div (sum_of_degrees g) (number_of_nodes g);
  Ok (c, {| metric_nodes := number_of_nodes g;
            metric_edges := number_of_edges g;
            metric_average_degree := avg |}).

End Classifier.
End WebDiver.

(** ** The Streamlit page ([app.py]) *)

Module App.

(** How a run of the page ends after "Analyze".
    - [CrawlFailed]: [build_website_graph] raised the [ValueError] of an
      unparsable start URL.
    - [Crashed e]: [graph_stats] raised [e].
    - [ZeroNodeWarning]: the metrics and the warning for a graph without
      nodes were shown.
    - [AssertionFailed]: the metrics were shown, and [to_pyvis] ended in the
      failed assertion of pyvis.
    - [ViewFailed]: the metrics were shown, the view was built, and writing
      it out or embedding it raised.
    - [GraphShown]: the metrics and the embedded page of the view were
      shown. *)
Inductive outcome : Type :=
  | CrawlFailed
  | Crashed (e : exn)
  | AssertionFailed (stats : WebsiteGraph.Stats)
  | ZeroNodeWarning (stats : WebsiteGraph.Stats)
  | ViewFailed (stats : WebsiteGraph.Stats) (view : Network)
  | GraphShown (stats : WebsiteGraph.Stats) (view : Network) (html : string).

(** The body of [if submit:], from the graph [G] on.  [render view] is the
    temporary file, [net.show(tmp_path)], [open(tmp_path).read()] and
    [components.html(html, ...)]: the page that was embedded, or [None] when
    one of them raised.  The removal of the temporary file is in a [try] of
    its own and changes nothing. *)
Definition show (shapes : Shapes) (render : Network → option string) (g : Graph) : outcome :=
  match WebsiteGraph.graph_stats shapes g with
  | Raise e => Crashed e
  | Ok stats =>
      if bool_decide (number_of_nodes g = 0%nat) then ZeroNodeWarning stats
      else match WebsiteGraph.to_pyvis g "700px" "100%" with
           | Some view =>
               match render view with
               | Some html => GraphShown stats view html
               | None => ViewFailed stats view
               end
           | None => AssertionFailed stats
           end
  end.

(** The body of [if submit:]. *)
Definition on_submit {World Page : Type} (parses : string → bool) (lib : Urllib)
    (net : Net World Page) (shapes : Shapes) (render : Network → option string)
    (start_url : string) (max_pages max_depth : Z) (same_domain : bool) (w : World)
    : outcome :=
  match (WebsiteGraph.build_website_graph_or_raise parses lib net start_url
           max_pages max_depth same_domain w).1 with
  | WebsiteGraph.ValueError => CrawlFailed
  | WebsiteGraph.Returned g => show shapes render g
  end.

End App.

(** ** Concrete libraries and sites for the examples

    [urllib_sample] gives the values of [urllib.parse] on the URLs used in
    the examples: absolute references with an authority, and the empty
    reference. *)

Module Sample.

(** [urlparse(u).scheme] of an absolute URL: the text before the first colon. *)
Definition scheme (u : string) : string :=
  if Str.contains ":"%char u then Str.split_head ":"%char u else EmptyString.

Fixpoint after_double_slash (s : string) : option string :=
  match s with
  | String "/"%char (String "/"%char r) => Some r
  | String _ r => after_double_slash r
  | EmptyString => None
  end.

Fixpoint take_until (p : ascii → bool) (s : string) : string :=
  match s with
  | EmptyString => EmptyString
  | String a r => if p a then EmptyString else String a (take_until p r)
  end.

(** [urlparse(u).netloc]: the text between ["//"] and the next ['/'], ['?']
    or ['#']. *)
Definition netloc (u : string) : string :=
  match after_double_slash u with
  | Some r => take_until (λ a, Ascii.eqb a "/" || Ascii.eqb a "?" || Ascii.eqb a "#")%char r
  | None => EmptyString
  end.

(** [urlunparse(urlparse(u))] for a [u] without fragment: a ['?'] with an
    empty query behind it is not written back. *)
Definition reassemble (u : string) : string :=
  let before := Str.split_head "?"%char u in
  if bool_decide (u = before +:+ "?") then before else u.

(** [urljoin(base, ref)]: the base for the empty reference; an absolute
    reference is returned as it is when its scheme differs from the base's,
    and reassembled from its parts when the schemes agree. *)
Definition join (base ref : string) : string :=
  if bool_decide (ref = EmptyString) then base
  else if bool_decide (scheme ref = scheme base) then reassemble ref
  else ref.

Definition urllib_sample : Urllib :=
  {| urljoin := join; url_scheme := scheme; url_netloc := netloc |}.

(** Whether [urlparse(u)] returns: an authority with one of ['['] and [']']
    but not the other is refused as an invalid IPv6 URL. *)
Definition parses (u : string) : bool :=
  Bool.eqb (Str.contains "["%char (netloc u)) (Str.contains "]"%char (netloc u)).

(** A site is a table from URL to the hrefs of its page.  The world is the
    list of the URLs requested so far, latest first. *)
Definition site : Type := list (string * list string).

Fixpoint page_of (s : site) (url : string) : option (list string) :=
  match s with
  | [] => None
  | (u, hrefs) :: rest => if bool_decide (u = url) then Some hrefs else page_of rest url
  end.

Definition net_of (s : site) (robots : string → result bool) : Net (list string) (list string) :=
  {| requests_get := λ w url _ _,
       match page_of s url with
       | Some hrefs => (Ok hrefs, url :: w)
       | None => (Raise RequestException, url :: w)
       end;
     anchor_hrefs := λ page, Ok page;
     robots_can_fetch := λ w _ _ url, (robots url, w) |}.

Definition allow_all (url : string) : result bool := Ok true.

(** The seed links to two pages of its own host. *)
Definition fan_site : site :=
  [("http://a.com", ["http://a.com/b"; "http://a.com/c"])].

(** The linear chain A -> B -> C -> D. *)
Definition chain_site : site :=
  [("http://a.com", ["http://a.com/b"]);
   ("http://a.com/b", ["http://a.com/c"]);
   ("http://a.com/c", ["http://a.com/d"])].

(** The linear chain A -> B -> C, and a page that links to itself. *)
Definition short_chain_site : site :=
  [("http://a.com", ["http://a.com/b"]);
   ("http://a.com/b", ["http://a.com/c"]);
   ("http://a.com/c", [])].

Definition self_loop_site : site :=
  [("http://a.com", ["http://a.com/"; "#top"; "mailto:me@a.com"])].

Definition no_shapes : Shapes :=
  {| nx_is_tree := λ _, false; nx_is_bipartite := λ _, false;
     nx_has_cycle_basis := λ _, false |}.

(** A URL of 67 characters. *)
Definition long_url : string :=
  "http://a.com/0123456789/0123456789/0123456789/0123456789/0123456789".

Definition tree_shapes : Shapes :=
  {| nx_is_tree := λ _, true; nx_is_bipartite := λ _, true;
     nx_has_cycle_basis := λ _, false |}.

End Sample.

(** * Properties *)

(** ** Strings *)

Lemma rstrip_slashes_decompose (s : string) :
  ∃ k, s = Str.rstrip is_slash s +:+ Str.replicate k "/"%char.
Proof.
  induction s as [|a s [k IH]]; [by exists 0%nat|].
  cbn [Str.rstrip]. destruct (Str.rstrip is_slash s) as [|b r] eqn:E.
  - cbn in IH. subst s. destruct (is_slash a) eqn:Ha.
    + exists (S k). apply Ascii.eqb_eq in Ha. by subst a.
    + by exists k.
  - exists k. cbn. by rewrite IH at 1.
Qed.

Lemma rstrip_slashes_no_trailing (s : string) :
  Str.ends_with "/"%char (Str.rstrip is_slash s) = false.
Proof.
  induction s as [|a s IH]; [done|].
  cbn [Str.rstrip]. destruct (Str.rstrip is_slash s) as [|b r] eqn:E.
  - destruct (is_slash a) eqn:Ha; [done|]. exact Ha.
  - exact IH.
Qed.

Lemma rstrip_slashes_fixed (s : string) :
  Str.ends_with "/"%char s = false → Str.rstrip is_slash s = s.
Proof.
  induction s as [|a s IH]; [done|]. intros H.
  cbn [Str.rstrip]. destruct s as [|b r].
  - cbn in *. unfold is_slash. by rewrite H.
  - rewrite IH; [done|]. exact H.
Qed.

Lemma rstrip_slashes_idempotent (s : string) :
  Str.rstrip is_slash (Str.rstrip is_slash s) = Str.rstrip is_slash s.
Proof. apply rstrip_slashes_fixed, rstrip_slashes_no_trailing. Qed.

Lemma split_head_fixed (c : ascii) (s : string) :
  Str.contains c s = false → Str.split_head c s = s.
Proof.
  induction s as [|a s IH]; [done|]. cbn. intros H.
  apply orb_false_iff in H as [Ha Hs]. rewrite Ha. by rewrite IH.
Qed.

Lemma split_head_no_separator (c : ascii) (s : string) :
  Str.contains c (Str.split_head c s) = false.
Proof.
  induction s as [|a s IH]; [done|]. cbn.
  destruct (Ascii.eqb a c) eqn:E; [done|]. cbn. by rewrite E.
Qed.

Lemma split_head_idempotent (c : ascii) (s : string) :
  Str.split_head c (Str.split_head c s) = Str.split_head c s.
Proof. apply split_head_fixed, split_head_no_separator. Qed.

(** ** URL normalizer *)

Section NormalizerFacts.
Import WebsiteGraph.
Variable lib : Urllib.

(** C5 (as the code has it): [normalize_url] removes the whole run of final
    slashes of the resolved URL, not a single one: the resolved URL is the
    result followed by [k >= 0] slashes, and the result does not end in a
    slash. *)
Theorem normalize_url_strips_all_trailing_slashes (base link : string) :
  let joined := urljoin lib base (Str.split_head "#"%char link) in
  (∃ k, joined = normalize_url lib base link +:+ Str.replicate k "/"%char)
  ∧ Str.ends_with "/"%char (normalize_url lib base link) = false.
Proof.
  cbn. split.
  - apply rstrip_slashes_decompose.
  - apply rstrip_slashes_no_trailing.
Qed.

(** C4 (as the code has it): a normalized URL [x = normalize_url(base, u)]
    is left unchanged by a second normalization against the same base
    whenever [x] holds no ['#'] and [urljoin] resolves [x] to itself. *)
Theorem normalize_url_idempotent_when_resolved (base u : string) :
  let x := normalize_url lib base u in
  Str.contains "#"%char x = false →
  urljoin lib base x = x →
  normalize_url lib base x = x.
Proof.
  intros x Hfrag Hjoin. unfold normalize_url at 1.
  rewrite split_head_fixed by exact Hfrag. rewrite Hjoin.
  apply rstrip_slashes_idempotent.
Qed.

(** The seed is normalized against itself with an empty link: with a
    [urljoin] that returns the base for the empty reference, doing it twice
    changes nothing. *)
Lemma normalize_seed_idempotent (seed : string) :
  (∀ b, urljoin lib b EmptyString = b) →
  normalize_url lib (normalize_url lib seed EmptyString) EmptyString
  = normalize_url lib seed EmptyString.
Proof.
  intros Hempty. unfold normalize_url. cbn. rewrite !Hempty.
  apply rstrip_slashes_idempotent.
Qed.

End NormalizerFacts.

(** ** The crawl loop *)

Section CrawlerFacts.
Import WebsiteGraph.
Context {World Page : Type}.
Variable lib : Urllib.
Variable net : Net World Page.

Section LoopFacts.
Variables (max_pages max_depth : Z) (same_domain : bool) (domain : string).

Abbreviation state := (@state World).
Abbreviation visit_link := (visit_link lib max_pages max_depth same_domain domain).
Abbreviation for_links := (for_links lib max_pages max_depth same_domain domain).
Abbreviation iteration := (iteration lib net max_pages max_depth same_domain domain).
Abbreviation loop_from := (loop_from lib net max_pages max_depth same_domain domain).
Abbreviation while_loop := (while_loop lib net max_pages max_depth same_domain domain).
Abbreviation reachable := (reachable lib net max_pages max_depth same_domain domain).

Lemma loop_from_unfold (b k : nat) (st : state) :
  loop_from b k st =
  match iteration st with
  | Done => st
  | Skipped st' => match k with S k' => loop_from b k' st' | O => st' end
  | Crawled st' =>
      match b with S b' => loop_from b' (length (q st')) st' | O => st' end
  end.
Proof. destruct b, k; reflexivity. Qed.

(** The page counter and the network are not touched by the link loop. *)
Lemma visit_link_pages_crawled url depth (st : state) link :
  pages_crawled (visit_link url depth st link) = pages_crawled st.
Proof. unfold WebsiteGraph.visit_link. repeat case_match; done. Qed.

Lemma visit_link_world url depth (st : state) link :
  world (visit_link url depth st link) = world st.
Proof. unfold WebsiteGraph.visit_link. repeat case_match; done. Qed.

(** A property kept by every pass of the link loop is kept by the loop. *)
Lemma for_links_invariant (P : state → Prop) url depth links st :
  (∀ st link, P st → P (visit_link url depth st link)) →
  P st → P (for_links url depth links st).
Proof.
  intros Hstep. unfold WebsiteGraph.for_links.
  revert st. induction links as [|l links IH]; intros st HP; cbn; [done|].
  apply IH, Hstep, HP.
Qed.

Lemma for_links_pages_crawled url depth links (st : state) :
  pages_crawled (for_links url depth links st) = pages_crawled st.
Proof.
  apply (for_links_invariant (λ s, pages_crawled s = pages_crawled st)); [|done].
  intros s l Hs. by rewrite visit_link_pages_crawled.
Qed.

Lemma for_links_world url depth links (st : state) :
  world (for_links url depth links st) = world st.
Proof.
  apply (for_links_invariant (λ s, world s = world st)); [|done].
  intros s l Hs. by rewrite visit_link_world.
Qed.

(** What is known after a [continue]. *)
Lemma iteration_skipped (st st' : state) :
  iteration st = Skipped st' →
  ∃ url depth rest,
    q st = (url, depth) :: rest ∧ pages_crawled st < max_pages
    ∧ G st' = G st ∧ seen st' = seen st ∧ q st' = rest
    ∧ pages_crawled st' = pages_crawled st ∧ enqueued st' = enqueued st.
Proof.
  unfold WebsiteGraph.iteration. destruct (q st) as [|[url depth] rest] eqn:Hq; [done|].
  destruct (pages_crawled st <? max_pages) eqn:Hpc; [|done]. cbn [negb].
  apply Z.ltb_lt in Hpc. intros H. exists url, depth, rest.
  destruct (depth >? max_depth).
  { injection H as <-. done. }
  destruct (allowed_by_robots lib net (world st) url) as [allowed w1].
  destruct allowed; cbn [negb] in H.
  - destruct (extract_links lib net w1 url). done.
  - injection H as <-. done.
Qed.

(** What is known after a page was crawled. *)
Lemma iteration_crawled (st st' : state) :
  iteration st = Crawled st' →
  ∃ url depth rest links w,
    q st = (url, depth) :: rest ∧ pages_crawled st < max_pages
    ∧ depth ≤ max_depth
    ∧ st' = for_links url depth links (page_registered st url rest w).
Proof.
  unfold WebsiteGraph.iteration. destruct (q st) as [|[url depth] rest] eqn:Hq; [done|].
  destruct (pages_crawled st <? max_pages) eqn:Hpc; [|done]. cbn [negb].
  apply Z.ltb_lt in Hpc. intros H.
  destruct (depth >? max_depth) eqn:Hd; [done|].
  destruct (allowed_by_robots lib net (world st) url) as [allowed w1].
  destruct allowed; cbn [negb] in H; [|done].
  destruct (extract_links lib net w1 url) as [r w2].
  injection H as <-. exists url, depth, rest. eexists _, w2.
  split_and!; [done|done|lia|done].
Qed.

Lemma loop_from_reachable st0 b : ∀ k st,
  reachable st0 st → reachable st0 (loop_from b k st).
Proof.
  induction b as [|b IHb]; intros k; induction k as [|k IHk]; intros st Hst;
    rewrite loop_from_unfold; destruct (iteration st) as [|st'|st'] eqn:Hit;
    eauto using WebsiteGraph.reachable.
Qed.

Lemma while_loop_reachable st0 : reachable st0 (while_loop st0).
Proof. apply loop_from_reachable. constructor. Qed.

(** Invariants: a property of the start state that each iteration keeps
    holds in every state the loop passes through. *)
Lemma reachable_invariant (I : state → Prop) st0 :
  I st0 →
  (∀ st st', I st → iteration st = Skipped st' → I st') →
  (∀ st st', I st → iteration st = Crawled st' → I st') →
  ∀ st, reachable st0 st → I st.
Proof. intros H0 Hs Hc st Hr. induction Hr; eauto. Qed.

(** The loop is left only when its condition is false: the two counters of
    [while_loop] never run out. *)
Lemma loop_from_finished b : ∀ k st,
  (Z.to_nat (max_pages - pages_crawled st) ≤ b)%nat →
  (length (q st) ≤ k)%nat →
  iteration (loop_from b k st) = Done.
Proof.
  induction b as [|b IHb]; intros k; induction k as [|k IHk]; intros st Hb Hk;
    rewrite loop_from_unfold; destruct (iteration st) as [|st'|st'] eqn:Hit;
    try done.
  all: first
    [ apply iteration_skipped in Hit
        as (url & depth & rest & Hq & Hpc & _ & _ & Hq' & Hpc' & _);
      rewrite Hq in Hk; cbn in Hk;
      first [ lia | apply IHk; [rewrite Hpc'; lia | rewrite Hq'; lia] ]
    | apply iteration_crawled in Hit
        as (url & depth & rest & links & w & Hq & Hpc & _ & ->);
      first [ lia
            | apply IHb; [rewrite for_links_pages_crawled; cbn; lia | done] ] ].
Qed.

Lemma while_loop_finished (st : state) : iteration (while_loop st) = Done.
Proof. apply loop_from_finished; done. Qed.

Lemma iteration_done (st : state) :
  iteration st = Done → q st = [] ∨ max_pages ≤ pages_crawled st.
Proof.
  unfold WebsiteGraph.iteration. destruct (q st) as [|[url depth] rest]; [by left|].
  destruct (pages_crawled st <? max_pages) eqn:Hpc.
  - cbn [negb]. destruct (depth >? max_depth); [done|].
    destruct (allowed_by_robots lib net (world st) url) as [[] w1]; cbn [negb]; [|done].
    by destruct (extract_links lib net w1 url).
  - intros _. right. apply Z.ltb_ge in Hpc. done.
Qed.

(** *** The link loop, case by case *)

Lemma visit_link_cases url depth (st : state) link :
  visit_link url depth st link = st
  ∨ (is_valid_scheme lib link = true
     ∧ (same_domain = true → url_netloc lib link = domain)
     ∧ G (visit_link url depth st link) = add_edge (G st) url link
     ∧ ((seen (visit_link url depth st link) = seen st
         ∧ q (visit_link url depth st link) = q st
         ∧ enqueued (visit_link url depth st link) = enqueued st)
        ∨ ((link ∉ seen st) ∧ depth + 1 ≤ max_depth
           ∧ seen (visit_link url depth st link) = {[link]} ∪ seen st
           ∧ q (visit_link url depth st link) = (q st ++ [(link, depth + 1)])%list
           ∧ enqueued (visit_link url depth st link) = (enqueued st ++ [link])%list))).
Proof.
  unfold WebsiteGraph.visit_link.
  destruct (is_valid_scheme lib link) eqn:Hv; cbn [negb]; [|by left].
  destruct (same_domain && negb (bool_decide (url_netloc lib link = domain))) eqn:Hd;
    [by left|].
  right. split; [done|]. split.
  { intros ->. cbn in Hd. apply negb_false_iff, bool_decide_eq_true in Hd. done. }
  destruct (negb (bool_decide (link ∈ seen st)) && (depth + 1 <=? max_depth)
            && (pages_crawled st <? max_pages)) eqn:Hq; cbn.
  - split; [done|]. right.
    apply andb_true_iff in Hq as [Hq _]. apply andb_true_iff in Hq as [Hs Hm].
    apply negb_true_iff, bool_decide_eq_false in Hs. apply Z.leb_le in Hm. done.
  - split; [done|]. by left.
Qed.

Lemma elem_of_edges_add_edge g u v e :
  e ∈ edges (add_edge g u v) → e = (u, v) ∨ e ∈ edges g.
Proof. unfold add_edge. cbn. case_match; set_solver. Qed.

Lemma edges_add_edge_directed g u v :
  directed g = true → edges (add_edge g u v) = {[(u, v)]} ∪ edges g.
Proof. unfold add_edge. cbn. by intros ->. Qed.

(** *** Depths on the queue *)

Lemma visit_link_queue_depths url depth (st : state) link :
  0 ≤ depth → queue_depths_ok max_depth st →
  queue_depths_ok max_depth (visit_link url depth st link).
Proof.
  intros Hd Hst. unfold queue_depths_ok in *.
  destruct (visit_link_cases url depth st link)
    as [->|(_ & _ & _ & [(_ & -> & _)|(_ & Hm & _ & -> & _)])]; try done.
  apply Forall_app. split; [done|]. apply Forall_singleton. cbn. lia.
Qed.

Lemma iteration_queue_depths (st st' : state) :
  queue_depths_ok max_depth st →
  iteration st = Skipped st' ∨ iteration st = Crawled st' →
  queue_depths_ok max_depth st'.
Proof.
  intros Hst [Hit|Hit].
  - apply iteration_skipped in Hit as (url & depth & rest & Hq & _ & _ & _ & Hq' & _).
    unfold queue_depths_ok in *. rewrite Hq in Hst. rewrite Hq'.
    by apply Forall_cons in Hst as [_ ?].
  - apply iteration_crawled in Hit as (url & depth & rest & links & w & Hq & _ & _ & ->).
    unfold queue_depths_ok in Hst. rewrite Hq in Hst.
    apply Forall_cons in Hst as [Hd Hrest]. cbn in Hd.
    apply for_links_invariant.
    + intros s l. apply visit_link_queue_depths. lia.
    + exact Hrest.
Qed.

(** *** The seen set and the history of the queue *)

Lemma visit_link_seen_is_history url depth (st : state) link :
  seen_is_history st → seen_is_history (visit_link url depth st link).
Proof.
  intros (Hnd & Hseen & popped & Hq). unfold seen_is_history.
  destruct (visit_link_cases url depth st link)
    as [->|(_ & _ & _ & [(-> & -> & ->)|(Hnew & _ & -> & -> & ->)])]; try by eauto.
  assert (link ∉ enqueued st) as Hfresh by (by rewrite Hseen).
  split_and!.
  - apply NoDup_app. split_and!; [done| |apply NoDup_singleton].
    intros x Hx ->%list_elem_of_singleton. done.
  - intros u. rewrite elem_of_app, list_elem_of_singleton, elem_of_union, elem_of_singleton.
    rewrite Hseen. tauto.
  - exists popped. rewrite fmap_app, Hq. cbn. by rewrite app_assoc.
Qed.

Lemma iteration_seen_is_history (st st' : state) :
  seen_is_history st →
  iteration st = Skipped st' ∨ iteration st = Crawled st' →
  seen_is_history st'.
Proof.
  intros (Hnd & Hseen & popped & Hq) [Hit|Hit].
  - apply iteration_skipped in Hit
      as (url & depth & rest & Hq0 & _ & _ & Hs' & Hq' & _ & He').
    unfold seen_is_history. rewrite Hs', Hq', He'. rewrite Hq0 in Hq.
    split_and!; [done|done|]. exists (popped ++ [url])%list.
    rewrite Hq. cbn. by rewrite <- app_assoc.
  - apply iteration_crawled in Hit as (url & depth & rest & links & w & Hq0 & _ & _ & ->).
    apply for_links_invariant; [intros s l; apply visit_link_seen_is_history|].
    unfold seen_is_history. cbn. rewrite Hq0 in Hq.
    split_and!; [done|done|]. exists (popped ++ [url])%list.
    rewrite Hq. cbn. by rewrite <- app_assoc.
Qed.

(** *** Accepted edges *)

Lemma visit_link_edges_accepted url depth (st : state) link :
  edges_accepted lib same_domain domain st →
  edges_accepted lib same_domain domain (visit_link url depth st link).
Proof.
  intros Hst. unfold edges_accepted in *.
  destruct (visit_link_cases url depth st link) as [->|(Hv & Hd & -> & _)]; [done|].
  intros u v [Heq|Hin]%elem_of_edges_add_edge; [|by eapply Hst].
  injection Heq as -> ->. done.
Qed.

Lemma iteration_edges_accepted (st st' : state) :
  edges_accepted lib same_domain domain st →
  iteration st = Skipped st' ∨ iteration st = Crawled st' →
  edges_accepted lib same_domain domain st'.
Proof.
  intros Hst [Hit|Hit].
  - apply iteration_skipped in Hit as (url & depth & rest & _ & _ & HG & _).
    unfold edges_accepted. by rewrite HG.
  - apply iteration_crawled in Hit as (url & depth & rest & links & w & _ & _ & _ & ->).
    apply for_links_invariant; [intros s l; apply visit_link_edges_accepted|].
    exact Hst.
Qed.

(** *** The page budget *)

(** The part of [budget_kept] that the link loop of the page [url] keeps,
    [crawled] being the pages crawled up to and including [url]. *)
Lemma visit_link_crawled_pages url depth (crawled : gset string) (st : state) link :
  url ∈ crawled →
  directed (G st) = true ∧ NoDup (q st).*1 ∧ (∀ u d, (u, d) ∈ q st → u ∈ seen st)
  ∧ crawled ⊆ nodes (G st)
  ∧ (∀ u v, (u, v) ∈ edges (G st) → u ∈ crawled)
  ∧ (∀ u, u ∈ nodes (G st) → u ∈ crawled ∨ ∃ v, (v, u) ∈ edges (G st))
  ∧ crawled ⊆ seen st
  ∧ (∀ u d, (u, d) ∈ q st → u ∉ crawled) →
  let st' := visit_link url depth st link in
  directed (G st') = true ∧ NoDup (q st').*1 ∧ (∀ u d, (u, d) ∈ q st' → u ∈ seen st')
  ∧ crawled ⊆ nodes (G st')
  ∧ (∀ u v, (u, v) ∈ edges (G st') → u ∈ crawled)
  ∧ (∀ u, u ∈ nodes (G st') → u ∈ crawled ∨ ∃ v, (v, u) ∈ edges (G st'))
  ∧ crawled ⊆ seen st'
  ∧ (∀ u d, (u, d) ∈ q st' → u ∉ crawled).
Proof.
  intros Hurl (Hdir & Hnd & Hqs & HCn & Hsrc & Hnode & HCs & HqC). cbn zeta.
  destruct (visit_link_cases url depth st link) as [->|(_ & _ & HG & Hrest)]; [done|].
  rewrite HG. rewrite edges_add_edge_directed by done.
  assert (nodes (add_edge (G st) url link) = {[url; link]} ∪ nodes (G st)) as -> by done.
  assert (directed (add_edge (G st) url link) = true) as -> by done.
  assert (∀ u v, (u, v) ∈ {[(url, link)]} ∪ edges (G st) → u ∈ crawled) as Hsrc'.
  { intros u v [Heq%elem_of_singleton|Hin]%elem_of_union.
    - by injection Heq as -> ->.
    - by eapply Hsrc. }
  assert (∀ u, u ∈ {[url; link]} ∪ nodes (G st) →
               u ∈ crawled ∨ ∃ v, (v, u) ∈ {[(url, link)]} ∪ edges (G st)) as Hnode'.
  { intros u [Hu|Hu]%elem_of_union.
    - apply elem_of_union in Hu as [Hu|Hu]; apply elem_of_singleton in Hu; subst u.
      + by left.
      + right. exists url. apply elem_of_union. left. by apply elem_of_singleton.
    - destruct (Hnode u Hu) as [?|[v ?]]; [by left|right].
      exists v. apply elem_of_union. by right. }
  destruct Hrest as [(-> & -> & _)|(Hnew & _ & -> & -> & _)].
  - split_and!; try done. etrans; [exact HCn|]. apply union_subseteq_r.
  - assert (link ∉ (q st).*1) as Hfresh.
    { intros ([u d] & -> & Hin)%list_elem_of_fmap. apply Hnew. by eapply Hqs. }
    split_and!; try done.
    + rewrite fmap_app. apply NoDup_app. split_and!; [done| |apply NoDup_singleton].
      intros x Hx Hx'%list_elem_of_singleton. by subst x.
    + intros u d [Hin|Hin%list_elem_of_singleton]%elem_of_app.
      * apply elem_of_union. right. by eapply Hqs.
      * injection Hin as -> ->. apply elem_of_union. left. by apply elem_of_singleton.
    + etrans; [exact HCn|]. apply union_subseteq_r.
    + etrans; [exact HCs|]. apply union_subseteq_r.
    + intros u d [Hin|Hin%list_elem_of_singleton]%elem_of_app.
      * by eapply HqC.
      * injection Hin as -> ->. intros Hc. apply Hnew. by apply HCs.
Qed.

Lemma iteration_budget_kept (st st' : state) :
  budget_kept max_pages st →
  iteration st = Skipped st' ∨ iteration st = Crawled st' →
  budget_kept max_pages st'.
Proof.
  intros (Hdir & Hpc & Hnd & Hqs & C & Hsize & HCn & Hsrc & Hnode & HCs & HqC) [Hit|Hit].
  - apply iteration_skipped in Hit
      as (url & depth & rest & Hq & _ & HG & Hs' & Hq' & Hpc' & _).
    unfold budget_kept, crawled_pages. rewrite HG, Hs', Hq', Hpc'.
    rewrite Hq in Hnd, Hqs, HqC. cbn in Hnd. apply NoDup_cons in Hnd as [_ Hnd].
    split_and!; [done|done|done| |].
    + intros u d Hin. eapply Hqs. apply elem_of_cons. by right.
    + exists C. split_and!; try done.
      intros u d Hin. eapply HqC. apply elem_of_cons. by right.
  - apply iteration_crawled in Hit as (url & depth & rest & links & w & Hq & Hlt & _ & ->).
    rewrite Hq in Hnd, Hqs, HqC. cbn in Hnd. apply NoDup_cons in Hnd as [Hurl Hnd].
    assert (url ∉ C) as HurlC by (eapply HqC; apply elem_of_cons; by left).
    assert (url ∈ seen st) as Hurls by (eapply Hqs; apply elem_of_cons; by left).
    set (C' := {[url]} ∪ C).
    pose proof (for_links_invariant
      (λ s, directed (G s) = true ∧ NoDup (q s).*1 ∧ (∀ u d, (u, d) ∈ q s → u ∈ seen s)
            ∧ C' ⊆ nodes (G s)
            ∧ (∀ u v, (u, v) ∈ edges (G s) → u ∈ C')
            ∧ (∀ u, u ∈ nodes (G s) → u ∈ C' ∨ ∃ v, (v, u) ∈ edges (G s))
            ∧ C' ⊆ seen s
            ∧ (∀ u d, (u, d) ∈ q s → u ∉ C'))
      url depth links (page_registered st url rest w)) as Hloop.
    destruct Hloop as (Hdir' & Hnd' & Hqs' & HCn' & Hsrc' & Hnode' & HCs' & HqC').
    { intros s l. apply visit_link_crawled_pages.
      apply elem_of_union. left. by apply elem_of_singleton. }
    { cbn. split_and!; [done|done| | | | | |].
      - intros u d Hin. eapply Hqs. apply elem_of_cons. by right.
      - apply union_mono_l, HCn.
      - intros u v Hin. apply elem_of_union. right. by eapply Hsrc.
      - intros u [Hu|Hu]%elem_of_union.
        + left. apply elem_of_union. by left.
        + destruct (Hnode u Hu) as [?|?]; [left|by right]. apply elem_of_union. by right.
      - apply union_least; [|done]. by apply singleton_subseteq_l.
      - intros u d Hin [Hu%elem_of_singleton|Hu]%elem_of_union.
        + subst u. apply Hurl. apply list_elem_of_fmap. by exists (url, d).
        + revert Hu. eapply HqC. apply elem_of_cons. by right. }
    unfold budget_kept. rewrite for_links_pages_crawled. cbn [page_registered pages_crawled].
    split_and!; [done|lia|done|done|].
    exists C'. unfold crawled_pages. rewrite for_links_pages_crawled.
    cbn [page_registered pages_crawled]. split_and!; try done.
    unfold C'. rewrite size_union by (apply disjoint_singleton_l; done).
    rewrite size_singleton. lia.
Qed.

(** *** The graph only grows *)




End LoopFacts.

(** ** Runs of [build_website_graph] *)

Lemma crawl_passes_through start_url max_pages max_depth same_domain (w : World) :
  passes_through lib net start_url max_pages max_depth same_domain w
    (crawl lib net start_url max_pages max_depth same_domain w).
Proof. apply while_loop_reachable. Qed.

Lemma start_passes_through start_url max_pages max_depth same_domain (w : World) :
  passes_through lib net start_url max_pages max_depth same_domain w
    (initial_state (normalize_url lib start_url EmptyString) w).
Proof. constructor. Qed.

(** The run ends with an empty queue or a used-up page budget. *)
Lemma crawl_finished start_url max_pages max_depth same_domain (w : World) :
  let st := crawl lib net start_url max_pages max_depth same_domain w in
  q st = [] ∨ max_pages ≤ pages_crawled st.
Proof. cbn. eapply iteration_done, while_loop_finished. Qed.

Lemma passes_through_invariant (I : @state World → Prop)
    start_url max_pages max_depth same_domain w :
  I (initial_state (normalize_url lib start_url EmptyString) w) →
  (∀ st st', I st →
     iteration lib net max_pages max_depth same_domain
       (url_netloc lib (normalize_url lib start_url EmptyString)) st = Skipped st'
     ∨ iteration lib net max_pages max_depth same_domain
         (url_netloc lib (normalize_url lib start_url EmptyString)) st = Crawled st' →
     I st') →
  ∀ st, passes_through lib net start_url max_pages max_depth same_domain w st → I st.
Proof.
  intros H0 Hstep st Hr. eapply reachable_invariant; [exact H0| | |exact Hr]; eauto.
Qed.

(** C1 (as the code has it): the page budget bounds the pages that are
    crawled, not the nodes.  At the end of every run [pages_crawled] is at
    most [max(0, max_pages)], and there is a set of exactly [pages_crawled]
    nodes (the crawled pages) such that every edge of the graph starts in it
    and every node of the graph is in it or is the target of an edge. *)
Theorem crawled_pages_within_budget start_url max_pages max_depth same_domain (w : World) :
  let st := crawl lib net start_url max_pages max_depth same_domain w in
  let g := build_website_graph lib net start_url max_pages max_depth same_domain w in
  pages_crawled st ≤ Z.max 0 max_pages
  ∧ ∃ crawled : gset string,
      Z.of_nat (size crawled) = pages_crawled st
      ∧ crawled ⊆ nodes g
      ∧ (∀ u v, (u, v) ∈ edges g → u ∈ crawled)
      ∧ (∀ u, u ∈ nodes g → u ∈ crawled ∨ ∃ v, (v, u) ∈ edges g).
Proof.
  cbn.
  assert (budget_kept max_pages (crawl lib net start_url max_pages max_depth same_domain w))
    as (_ & Hpc & _ & _ & C & HC1 & HC2 & HC3 & HC4 & _).
  { apply (passes_through_invariant (budget_kept max_pages)
             start_url max_pages max_depth same_domain w);
      [| |apply crawl_passes_through].
    - unfold budget_kept, crawled_pages. cbn. split_and!; [done|lia| | |].
      + apply NoDup_singleton.
      + intros u d Hin%list_elem_of_singleton. injection Hin as -> ->.
        by apply elem_of_singleton.
      + exists ∅. split_and!; done.
    - intros st st'. apply iteration_budget_kept. }
  split; [exact Hpc|]. exists C. done.
Qed.

(** With [same_domain], in every state of a run every edge leads to a URL
    with a valid scheme and the host of the seed. *)
Lemma edges_accepted_in_run start_url max_pages max_depth same_domain (w : World)
    (st : state) :
  passes_through lib net start_url max_pages max_depth same_domain w st →
  edges_accepted lib same_domain (url_netloc lib (normalize_url lib start_url EmptyString)) st.
Proof.
  apply (passes_through_invariant
           (edges_accepted lib same_domain
              (url_netloc lib (normalize_url lib start_url EmptyString)))).
  - intros a b Hab. cbn in Hab. by apply not_elem_of_empty in Hab.
  - intros s s'. apply iteration_edges_accepted.
Qed.

(** C7: with [same_domain], the target of every edge of the finished graph
    has the host of the (normalized) seed URL. *)
Theorem same_domain_edges start_url max_pages max_depth (w : World) (u v : string) :
  (u, v) ∈ edges (build_website_graph lib net start_url max_pages max_depth true w) →
  url_netloc lib v = url_netloc lib (normalize_url lib start_url EmptyString).
Proof.
  intros Hin.
  pose proof (edges_accepted_in_run start_url max_pages max_depth true w _
                (crawl_passes_through start_url max_pages max_depth true w)) as Hacc.
  by apply (Hacc u v Hin).
Qed.

(** C8: in every state of a run, the history of the URLs put on the queue
    holds no URL twice and holds exactly the URLs of [seen], and the queue
    is the end of that history: a URL enters [seen] when it is put on the
    queue, and it is put there at most once. *)
Theorem enqueued_at_most_once start_url max_pages max_depth same_domain (w : World)
    (st : state) :
  passes_through lib net start_url max_pages max_depth same_domain w st →
  NoDup (enqueued st)
  ∧ (∀ u, u ∈ enqueued st ↔ u ∈ seen st)
  ∧ ∃ popped, enqueued st = (popped ++ (q st).*1)%list.
Proof.
  apply (passes_through_invariant seen_is_history).
  - unfold seen_is_history. cbn. split_and!.
    + apply NoDup_singleton.
    + intros u. rewrite list_elem_of_singleton, elem_of_singleton. done.
    + by exists [].
  - intros s s'. apply iteration_seen_is_history.
Qed.

(** With [max_depth >= 0], the depths on the queue stay within bounds. *)
Lemma queue_depths_in_run start_url max_pages max_depth same_domain (w : World)
    (st : state) :
  0 ≤ max_depth →
  passes_through lib net start_url max_pages max_depth same_domain w st →
  queue_depths_ok max_depth st.
Proof.
  intros Hmax. apply passes_through_invariant.
  - apply Forall_singleton. cbn. lia.
  - intros s s'. apply iteration_queue_depths.
Qed.

(** C10: with [max_depth >= 0], in every state of a run every queued entry
    has a depth between 0 and [max_depth]; so the test [depth > max_depth]
    made on the entry taken from the queue is false, and an entry is only
    ever dropped by the robots test. *)
Theorem queued_depths_within_max start_url max_pages max_depth same_domain (w : World)
    (st : state) :
  0 ≤ max_depth →
  passes_through lib net start_url max_pages max_depth same_domain w st →
  Forall (λ e : string * Z, 0 ≤ e.2 ≤ max_depth) (q st)
  ∧ (∀ url depth rest, q st = (url, depth) :: rest → (depth >? max_depth) = false)
  ∧ (∀ st',
       iteration lib net max_pages max_depth same_domain
         (url_netloc lib (normalize_url lib start_url EmptyString)) st = Skipped st' →
       ∃ url depth rest,
         q st = (url, depth) :: rest
         ∧ (allowed_by_robots lib net (world st) url).1 = false).
Proof.
  intros Hmax Hr.
  pose proof (queue_depths_in_run _ _ _ _ _ _ Hmax Hr) as Hq.
  assert (∀ url depth rest, q st = (url, depth) :: rest → (depth >? max_depth) = false)
    as Hhead.
  { intros url depth rest Heq. unfold queue_depths_ok in Hq. rewrite Heq in Hq.
    apply Forall_cons in Hq as [Hd _]. cbn in Hd. lia. }
  split_and!; [exact Hq|exact Hhead|].
  intros st'. unfold iteration.
  destruct (q st) as [|[url depth] rest] eqn:Heq; [done|].
  rewrite (Hhead url depth rest eq_refl).
  destruct (pages_crawled st <? max_pages); cbn [negb]; [|done].
  destruct (allowed_by_robots lib net (world st) url) as [allowed w1] eqn:Hrob.
  destruct allowed; cbn [negb].
  - by destruct (extract_links lib net w1 url).
  - intros _. exists url, depth, rest. by rewrite Hrob.
Qed.


(** A seed that robots.txt blocks leaves the graph empty. *)
Lemma blocked_seed_gives_empty_graph start_url max_pages max_depth same_domain (w : World) :
  (allowed_by_robots lib net w (normalize_url lib start_url EmptyString)).1 = false →
  build_website_graph lib net start_url max_pages max_depth same_domain w = DiGraph.
Proof.
  intros Hblocked. unfold build_website_graph, crawl, while_loop.
  set (s := normalize_url lib start_url EmptyString) in *.
  set (d := url_netloc lib s).
  rewrite loop_from_unfold.
  destruct (iteration lib net max_pages max_depth same_domain d (initial_state s w))
    as [|st'|st'] eqn:Hit; [done| |].
  - cbn [initial_state q length].
    apply iteration_skipped in Hit as (url & depth & rest & Hq & _ & HG & _ & Hq' & _).
    cbn in Hq. injection Hq as <- <- <-.
    rewrite loop_from_unfold. unfold iteration. rewrite Hq'. exact HG.
  - exfalso. revert Hit. unfold iteration. cbn.
    destruct (0 <? max_pages); cbn; [|done].
    destruct (0 >? max_depth); [done|].
    destruct (allowed_by_robots lib net w s) as [allowed w1]. cbn in Hblocked.
    subst allowed. done.
Qed.

End CrawlerFacts.

(** ** Failures are absorbed

    The loop cannot tell [net] from [absorbed net]: a failed robots lookup
    counts as "allowed", and a failed request or page parse as a page
    without links. *)

Section Failures.
Import WebsiteGraph.
Context {World Page : Type}.
Variable lib : Urllib.
Variable net : Net World Page.








End Failures.

(** ** Determinism *)

Section Determinism.
Import WebsiteGraph.
Context {W1 P1 W2 P2 : Type}.
Variable lib : Urllib.
Variable net1 : Net W1 P1.
Variable net2 : Net W2 P2.

(** The two networks give the same links and the same robots verdict for
    every URL, whatever state they are in. *)
Hypothesis same_links : ∀ w1 w2 url,
  (extract_links lib net1 w1 url).1 = (extract_links lib net2 w2 url).1.
Hypothesis same_robots : ∀ w1 w2 url,
  (allowed_by_robots lib net1 w1 url).1 = (allowed_by_robots lib net2 w2 url).1.

Section SameLoop.
Variables (max_pages max_depth : Z) (same_domain : bool) (domain : string).

Lemma visit_link_same_run url depth (st1 : @state W1) (st2 : @state W2) link :
  same_run st1 st2 →
  same_run (visit_link lib max_pages max_depth same_domain domain url depth st1 link)
           (visit_link lib max_pages max_depth same_domain domain url depth st2 link).
Proof.
  destruct st1, st2. intros (HG & Hs & Hq & Hpc & He). cbn in *. subst.
  unfold visit_link, same_run. cbn. repeat case_match; done.
Qed.

Lemma for_links_same_run url depth links : ∀ (st1 : @state W1) (st2 : @state W2),
  same_run st1 st2 →
  same_run (for_links lib max_pages max_depth same_domain domain url depth links st1)
           (for_links lib max_pages max_depth same_domain domain url depth links st2).
Proof.
  unfold for_links. induction links as [|l links IH]; intros st1 st2 H; cbn; [done|].
  apply IH, visit_link_same_run, H.
Qed.

Lemma iteration_same_run (st1 : @state W1) (st2 : @state W2) :
  same_run st1 st2 →
  same_outcome (iteration lib net1 max_pages max_depth same_domain domain st1)
               (iteration lib net2 max_pages max_depth same_domain domain st2).
Proof.
  intros (HG & Hs & Hq & Hpc & He). unfold iteration. rewrite <- Hq, <- Hpc.
  destruct (q st1) as [|[url depth] rest]; [done|].
  destruct (pages_crawled st1 <? max_pages); cbn [negb]; [|done].
  destruct (depth >? max_depth); [done|].
  pose proof (same_robots (world st1) (world st2) url) as Hr.
  destruct (allowed_by_robots lib net1 (world st1) url) as [a1 w1].
  destruct (allowed_by_robots lib net2 (world st2) url) as [a2 w2].
  cbn in Hr. subst a2. destruct a1; cbn [negb]; [|done].
  pose proof (same_links w1 w2 url) as Hl.
  destruct (extract_links lib net1 w1 url) as [r1 w1'].
  destruct (extract_links lib net2 w2 url) as [r2 w2'].
  cbn in Hl. subst r2. cbn. apply for_links_same_run.
  unfold same_run. cbn. rewrite HG, Hpc. done.
Qed.

Lemma loop_from_same_run b : ∀ k (st1 : @state W1) (st2 : @state W2),
  same_run st1 st2 →
  same_run (loop_from lib net1 max_pages max_depth same_domain domain b k st1)
           (loop_from lib net2 max_pages max_depth same_domain domain b k st2).
Proof.
  induction b as [|b IHb]; intros k; induction k as [|k IHk]; intros st1 st2 H;
    rewrite !loop_from_unfold;
    pose proof (iteration_same_run st1 st2 H) as Hit;
    destruct (iteration lib net1 max_pages max_depth same_domain domain st1) as [|a|a],
             (iteration lib net2 max_pages max_depth same_domain domain st2) as [|c|c];
    cbn in Hit; try done.
  - apply IHk, Hit.
  - pose proof Hit as (_ & _ & Hq & _). rewrite Hq. by apply IHb.
  - apply IHk, Hit.
  - pose proof Hit as (_ & _ & Hq & _). rewrite Hq. by apply IHb.
Qed.

End SameLoop.

(** C9: when the fetch/parse/robots layers of two runs return the same
    data, the two runs with the same seed and the same budget build the same
    graph (same nodes, same edges), and the classifier gives it the same
    label. *)
Theorem crawl_deterministic start_url max_pages max_depth same_domain
    (w1 : W1) (w2 : W2) :
  build_website_graph lib net1 start_url max_pages max_depth same_domain w1
  = build_website_graph lib net2 start_url max_pages max_depth same_domain w2
  ∧ ∀ shapes,
      classify_graph shapes
        (build_website_graph lib net1 start_url max_pages max_depth same_domain w1)
      = classify_graph shapes
          (build_website_graph lib net2 start_url max_pages max_depth same_domain w2).
Proof.
  assert (build_website_graph lib net1 start_url max_pages max_depth same_domain w1
          = build_website_graph lib net2 start_url max_pages max_depth same_domain w2) as Heq.
  { unfold build_website_graph, crawl, while_loop. cbn [initial_state pages_crawled q].
    apply loop_from_same_run. done. }
  split; [exact Heq|]. intros shapes. by rewrite Heq.
Qed.

End Determinism.

(** ** Classifier and statistics *)

Section ClassifierFacts.
Variable shapes : Shapes.

(** The directed branch has no label for the empty graph. *)
Lemma classify_directed_never_empty (g : Graph) :
  directed g = true → WebsiteGraph.classify_graph shapes g ≠ Ok EMPTY.
Proof.
  intros Hd. unfold WebsiteGraph.classify_graph, try_except. rewrite Hd.
  destruct (nx_is_strongly_connected g) as [[]|e]; cbn; [done| |].
  - destruct (nx_is_weakly_connected g) as [[]|e]; cbn; [done|done|].
    case_decide; done.
  - case_decide; done.
Qed.

(** The only exception that leaves [classify_graph] is the one networkx
    raises on the null graph, and only a directed graph gets there. *)
Lemma classify_graph_raises (g : Graph) (e : exn) :
  WebsiteGraph.classify_graph shapes g = Raise e →
  e = NetworkXPointlessConcept ∧ directed g = true ∧ number_of_nodes g = 0%nat.
Proof.
  unfold WebsiteGraph.classify_graph, try_except, nx_is_strongly_connected,
    nx_is_weakly_connected, nx_is_connected, number_of_nodes.
  destruct (directed g) eqn:Hd; cbn.
  - case_bool_decide as Hn; cbn.
    + intros [= <-]. done.
    + by repeat case_match.
  - case_bool_decide as Hn; cbn; [done|]. by repeat case_match.
Qed.

(** C2 (what the code does on the failing input): on the empty directed
    graph [classify_graph] does not return the label [EMPTY]; the exception
    that networkx raises for the null graph is not a [NetworkXError] and
    leaves [classify_graph]. *)
Theorem classify_graph_empty_digraph :
  WebsiteGraph.classify_graph shapes DiGraph = Raise NetworkXPointlessConcept.
Proof. reflexivity. Qed.

(** On an empty undirected graph the label is [EMPTY]. *)
Lemma classify_graph_empty_undirected (g : Graph) :
  directed g = false → number_of_nodes g = 0%nat →
  WebsiteGraph.classify_graph shapes g = Ok EMPTY.
Proof.
  intros Hd Hn. unfold WebsiteGraph.classify_graph. rewrite Hd.
  by rewrite bool_decide_eq_true_2.
Qed.

(** [graph_stats] of [website_graph.py] never divides by zero, and what it
    returns holds the quotient of the degree sum by the node count, or 0 for
    the graph without nodes. *)
Lemma graph_stats_average (g : Graph) (s : WebsiteGraph.Stats) :
  WebsiteGraph.graph_stats shapes g = Ok s →
  WebsiteGraph.average_degree s =
    if bool_decide (number_of_nodes g = 0%nat) then Qmake 0 1
    else Qmake (Z.of_nat (sum_of_degrees g)) (Pos.of_nat (number_of_nodes g)).
Proof.
  unfold WebsiteGraph.graph_stats.
  destruct (WebsiteGraph.classify_graph shapes g); cbn; [|done].
  intros [= <-]. cbn. repeat case_bool_decide; done.
Qed.

Lemma graph_stats_no_zero_division (g : Graph) :
  WebsiteGraph.graph_stats shapes g ≠ Raise ZeroDivisionError.
Proof.
  unfold WebsiteGraph.graph_stats.
  destruct (WebsiteGraph.classify_graph shapes g) eqn:Hc; cbn; [done|].
  apply classify_graph_raises in Hc as [-> _]. done.
Qed.

Lemma graph_stats_empty_undirected :
  WebsiteGraph.graph_stats shapes UGraph
  = Ok {| WebsiteGraph.classification := EMPTY; WebsiteGraph.stat_nodes := 0;
          WebsiteGraph.stat_edges := 0; WebsiteGraph.average_degree := Qmake 0 1 |}.
Proof. reflexivity. Qed.

(** [graph_stats] of [web_diver.py] returns nothing for a graph without
    nodes: if the classifier did not raise, the division would. *)
Lemma web_diver_graph_stats_empty (g : Graph) :
  number_of_nodes g = 0%nat →
  ∃ e, WebDiver.graph_stats shapes g = Raise e.
Proof.
  intros Hn. unfold WebDiver.graph_stats.
  destruct (WebDiver.classify_graph shapes g) as [c|e]; cbn; [|by exists e].
  unfold WebDiver.true_div. rewrite bool_decide_eq_true_2 by done. cbn. by eexists.
Qed.

(** C6 (what the code does on the failing input): for the empty directed
    graph [graph_stats] computes the average degree 0 without dividing, but
    then calls [classify_graph], whose exception leaves [graph_stats]: no
    statistics are returned.  [graph_stats] of [web_diver.py] fails on its
    empty graph in the same way. *)
Theorem graph_stats_empty_digraph :
  WebsiteGraph.graph_stats shapes DiGraph = Raise NetworkXPointlessConcept
  ∧ WebDiver.graph_stats shapes UGraph = Raise NetworkXPointlessConcept.
Proof. split; reflexivity. Qed.

End ClassifierFacts.

(** ** Examples on concrete sites *)

Section Examples.
Import WebsiteGraph.

Abbreviation sample_net := (Sample.net_of Sample.chain_site Sample.allow_all).

(** The link targets of the only crawled page are nodes too: three nodes
    with a budget of one page. *)
Lemma node_count_exceeds_budget :
  ¬ (Z.of_nat (number_of_nodes
       (build_website_graph Sample.urllib_sample
          (Sample.net_of Sample.fan_site Sample.allow_all)
          "http://a.com/" 1 2 true [])) ≤ 1).
Proof. vm_compute. intros H. by apply H. Qed.

Lemma crawled_pages_within_budget_fan :
  let st := crawl Sample.urllib_sample (Sample.net_of Sample.fan_site Sample.allow_all)
              "http://a.com/" 1 2 true [] in
  pages_crawled st ≤ Z.max 0 1
  ∧ ∃ crawled : gset string,
      Z.of_nat (size crawled) = pages_crawled st
      ∧ crawled ⊆ nodes (G st)
      ∧ (∀ u v, (u, v) ∈ edges (G st) → u ∈ crawled)
      ∧ (∀ u, u ∈ nodes (G st) → u ∈ crawled ∨ ∃ v, (v, u) ∈ edges (G st)).
Proof.
  exact (crawled_pages_within_budget Sample.urllib_sample
           (Sample.net_of Sample.fan_site Sample.allow_all) "http://a.com/" 1 2 true []).
Defined.



(** A valid URL whose normal form is changed by a second normalization. *)
Lemma normalize_url_not_idempotent :
  is_valid_scheme Sample.urllib_sample "http://a.com/x/?/" = true
  ∧ normalize_url Sample.urllib_sample "http://a.com/p"
      (normalize_url Sample.urllib_sample "http://a.com/p" "http://a.com/x/?/")
    ≠ normalize_url Sample.urllib_sample "http://a.com/p" "http://a.com/x/?/".
Proof. split; [reflexivity|]. vm_compute. discriminate. Qed.

Lemma normalize_url_idempotent_sample :
  normalize_url Sample.urllib_sample "http://a.com/p"
    (normalize_url Sample.urllib_sample "http://a.com/p" "http://a.com/x/#top")
  = normalize_url Sample.urllib_sample "http://a.com/p" "http://a.com/x/#top".
Proof.
  apply (normalize_url_idempotent_when_resolved Sample.urllib_sample
           "http://a.com/p" "http://a.com/x/#top"); reflexivity.
Defined.

(** A resolved URL that ends in two slashes loses both. *)
Lemma normalize_url_strips_two_slashes :
  let joined := urljoin Sample.urllib_sample "http://a.com/p"
                  (Str.split_head "#"%char "http://a.com/x//") in
  Str.ends_with "/"%char joined = true
  ∧ normalize_url Sample.urllib_sample "http://a.com/p" "http://a.com/x//"
    ≠ Str.drop_last joined.
Proof. split; [reflexivity|]. vm_compute. discriminate. Qed.

Lemma same_domain_edges_chain :
  url_netloc Sample.urllib_sample "http://a.com/b"
  = url_netloc Sample.urllib_sample (normalize_url Sample.urllib_sample "http://a.com/" EmptyString).
Proof.
  apply (same_domain_edges Sample.urllib_sample sample_net "http://a.com/" 10 2 []
           "http://a.com" "http://a.com/b").
  vm_compute. reflexivity.
Defined.

Lemma enqueued_at_most_once_chain :
  let st := crawl Sample.urllib_sample sample_net "http://a.com/" 10 2 true [] in
  NoDup (enqueued st)
  ∧ (∀ u, u ∈ enqueued st ↔ u ∈ seen st)
  ∧ ∃ popped, enqueued st = (popped ++ (q st).*1)%list.
Proof.
  apply (enqueued_at_most_once Sample.urllib_sample sample_net "http://a.com/" 10 2 true []).
  apply crawl_passes_through.
Defined.

Lemma queued_depths_within_max_chain :
  let st := initial_state (normalize_url Sample.urllib_sample "http://a.com/" EmptyString)
              ([] : list string) in
  Forall (λ e : string * Z, 0 ≤ e.2 ≤ 2) (q st)
  ∧ (∀ url depth rest, q st = (url, depth) :: rest → (depth >? 2) = false)
  ∧ (∀ st',
       iteration Sample.urllib_sample sample_net 10 2 true
         (url_netloc Sample.urllib_sample
            (normalize_url Sample.urllib_sample "http://a.com/" EmptyString)) st
       = Skipped st' →
       ∃ url depth rest,
         q st = (url, depth) :: rest
         ∧ (allowed_by_robots Sample.urllib_sample sample_net (world st) url).1 = false).
Proof.
  apply (queued_depths_within_max Sample.urllib_sample sample_net "http://a.com/" 10 2 true []);
    [lia | apply start_passes_through].
Defined.

(** Two runs over the chain site that start from different request logs. *)
Lemma crawl_deterministic_chain :
  build_website_graph Sample.urllib_sample sample_net "http://a.com/" 10 2 true []
  = build_website_graph Sample.urllib_sample sample_net "http://a.com/" 10 2 true
      ["http://elsewhere.org"]
  ∧ ∀ shapes,
      classify_graph shapes
        (build_website_graph Sample.urllib_sample sample_net "http://a.com/" 10 2 true [])
      = classify_graph shapes
          (build_website_graph Sample.urllib_sample sample_net "http://a.com/" 10 2 true
             ["http://elsewhere.org"]).
Proof.
  apply (crawl_deterministic Sample.urllib_sample sample_net sample_net).
  - intros w1 w2 url. unfold extract_links, Sample.net_of.
    cbn [requests_get anchor_hrefs].
    destruct (Sample.page_of Sample.chain_site url); reflexivity.
  - intros w1 w2 url. reflexivity.
Defined.

(** The scenarios of the specification. *)
Example linear_chain_depth_cutoff :
  let g := build_website_graph Sample.urllib_sample sample_net "http://a.com/" 10 1 true [] in
  elements (nodes g) = ["http://a.com/c"; "http://a.com/b"; "http://a.com"]
  ∧ elements (edges g) = [("http://a.com/b", "http://a.com/c"); ("http://a.com", "http://a.com/b")].
Proof. vm_compute. done. Qed.

Example linear_chain_scenario :
  graph_stats Sample.no_shapes
    (build_website_graph Sample.urllib_sample
       (Sample.net_of Sample.short_chain_site Sample.allow_all) "http://a.com/" 10 2 true [])
  = Ok {| classification := WEAKLY_CONNECTED_DIRECTED; stat_nodes := 3; stat_edges := 2;
          average_degree := Qmake 4 3 |}.
Proof. vm_compute. reflexivity. Qed.

Example self_loop_scenario :
  let g := build_website_graph Sample.urllib_sample
             (Sample.net_of Sample.self_loop_site Sample.allow_all) "http://a.com/" 10 2 true [] in
  elements (nodes g) = ["http://a.com"]
  ∧ elements (edges g) = [("http://a.com", "http://a.com")].
Proof. vm_compute. done. Qed.

Example robots_block_scenario :
  build_website_graph Sample.urllib_sample
    (Sample.net_of Sample.chain_site (λ _, Ok false)) "http://a.com/" 10 2 true []
  = DiGraph.
Proof. apply blocked_seed_gives_empty_graph. reflexivity. Qed.

(** With a fragment on the base, an empty link keeps the fragment, and a
    second normalization cuts it. *)
Example normalize_url_keeps_base_fragment :
  normalize_url Sample.urllib_sample "http://a.com/p#s" "#top" = "http://a.com/p#s"
  ∧ normalize_url Sample.urllib_sample "http://a.com/p#s" "http://a.com/p#s" = "http://a.com/p".
Proof. split; reflexivity. Qed.

End Examples.

(** * Further properties of the code *)

(** ** The crawl loop, once more *)

Section RunInvariants.
Import WebsiteGraph.
Context {World Page : Type}.
Variable lib : Urllib.
Variable net : Net World Page.
Variables (max_pages max_depth : Z) (same_domain : bool).

Abbreviation state := (@state World).

(** The links that the loop body works on come from [extract_links]. *)
Lemma iteration_crawled_from domain (st st' : state) :
  iteration lib net max_pages max_depth same_domain domain st = Crawled st' →
  ∃ url depth rest links w1 w2,
    q st = (url, depth) :: rest ∧ pages_crawled st < max_pages ∧ depth ≤ max_depth
    ∧ ((extract_links lib net w1 url).1 = Ok links
       ∨ (links = [] ∧ ∃ e, (extract_links lib net w1 url).1 = Raise e))
    ∧ st' = for_links lib max_pages max_depth same_domain domain url depth links
              (page_registered st url rest w2).
Proof.
  unfold iteration. destruct (q st) as [|[url depth] rest] eqn:Hq; [done|].
  destruct (pages_crawled st <? max_pages) eqn:Hpc; [|done]. cbn [negb].
  apply Z.ltb_lt in Hpc. intros H.
  destruct (depth >? max_depth) eqn:Hd; [done|].
  destruct (allowed_by_robots lib net (world st) url) as [allowed w1].
  destruct allowed; cbn [negb] in H; [|done].
  destruct (extract_links lib net w1 url) as [r w2] eqn:Hex.
  injection H as <-. exists url, depth, rest.
  exists (match r with Ok l => l | Raise _ => [] end), w1, w2.
  rewrite Hex. cbn. split_and!; [done|done|lia| |done].
  destruct r as [l|e]; [by left|right]. split; [done|by exists e].
Qed.

(** After a [continue] only the queue and the network have changed. *)
Lemma iteration_skipped_state domain (st st' : state) :
  iteration lib net max_pages max_depth same_domain domain st = Skipped st' →
  ∃ url depth rest w',
    q st = (url, depth) :: rest ∧ pages_crawled st < max_pages
    ∧ st' = {| G := G st; seen := seen st; q := rest;
               pages_crawled := pages_crawled st; world := w';
               enqueued := enqueued st |}.
Proof.
  unfold iteration. destruct (q st) as [|[url depth] rest] eqn:Hq; [done|].
  destruct (pages_crawled st <? max_pages) eqn:Hpc; [|done]. cbn [negb].
  apply Z.ltb_lt in Hpc. intros H. exists url, depth, rest.
  destruct (depth >? max_depth).
  { injection H as <-. by eexists. }
  destruct (allowed_by_robots lib net (world st) url) as [allowed w1].
  destruct allowed; cbn [negb] in H.
  - by destruct (extract_links lib net w1 url).
  - injection H as <-. by eexists.
Qed.

Lemma for_links_invariant_on (L : string → Prop) (P : state → Prop) domain url depth links :
  Forall L links →
  (∀ st link, L link → P st →
     P (visit_link lib max_pages max_depth same_domain domain url depth st link)) →
  ∀ st, P st → P (for_links lib max_pages max_depth same_domain domain url depth links st).
Proof.
  intros HL Hstep. unfold for_links.
  induction HL as [|l links Hl HL IH]; intros st HP; cbn; [done|].
  apply IH, Hstep; done.
Qed.

(** The proof scheme for a property [I] of the states of a run: [I] holds at
    the start, survives a [continue], and survives a crawled page through a
    property [P] of the link loop, the links having the property [L] that
    every link of [extract_links] has. *)
Lemma run_invariant (I : state → Prop) (L : string → Prop)
    (P : string → Z → state → Prop) start_url (w : World) :
  let seed := normalize_url lib start_url EmptyString in
  let domain := url_netloc lib seed in
  (∀ w url links, (extract_links lib net w url).1 = Ok links → Forall L links) →
  I (initial_state seed w) →
  (∀ st url depth rest w', I st → q st = (url, depth) :: rest →
     I {| G := G st; seen := seen st; q := rest; pages_crawled := pages_crawled st;
          world := w'; enqueued := enqueued st |}) →
  (∀ st url depth rest w', I st → q st = (url, depth) :: rest →
     pages_crawled st < max_pages → depth ≤ max_depth →
     P url depth (page_registered st url rest w')) →
  (∀ url depth st link, L link → P url depth st →
     P url depth (visit_link lib max_pages max_depth same_domain domain url depth st link)) →
  (∀ url depth st, P url depth st → I st) →
  ∀ st, passes_through lib net start_url max_pages max_depth same_domain w st → I st.
Proof.
  intros seed domain HL Hinit Hskip Henter Hlink Hleave.
  apply passes_through_invariant; [exact Hinit|].
  intros st st' HI [Hit|Hit].
  - apply iteration_skipped_state in Hit as (url & depth & rest & w' & Hq & _ & ->).
    by eapply Hskip.
  - apply iteration_crawled_from in Hit
      as (url & depth & rest & links & w1 & w2 & Hq & Hpc & Hd & Hlinks & ->).
    apply (Hleave url depth).
    apply (for_links_invariant_on L); [| |by eapply Henter].
    + destruct Hlinks as [Hok|[-> _]]; [by eapply HL|constructor].
    + intros s l. apply Hlink.
Qed.

End RunInvariants.

(** ** Paths from the seed *)

Lemma nsteps_mono {A : Type} (R R' : relation A) n x y :
  (∀ a b, R a b → R' a b) → nsteps R n x y → nsteps R' n x y.
Proof. intros Hsub. induction 1; econstructor; eauto. Qed.

Lemma links_to_add_edge g u v a b :
  WebsiteGraph.links_to g a b → WebsiteGraph.links_to (add_edge g u v) a b.
Proof. unfold WebsiteGraph.links_to, add_edge. cbn. case_match; set_solver. Qed.

Lemma links_to_add_edge_new g u v :
  directed g = true → WebsiteGraph.links_to (add_edge g u v) u v.
Proof.
  intros Hd. unfold WebsiteGraph.links_to. rewrite edges_add_edge_directed by done.
  set_solver.
Qed.

Section Paths.
Import WebsiteGraph.
Context {World Page : Type}.
Variable lib : Urllib.
Variable net : Net World Page.
Variables (max_pages max_depth : Z) (same_domain : bool).
Variables (start_url : string) (w : World).

Abbreviation state := (@state World).
Abbreviation seed := (normalize_url lib start_url EmptyString).

(** The shape of the graph in a state of the run: it is directed, the ends
    of its edges are nodes, a queued entry of depth [d] is [d] links away
    from the seed, a page with an outgoing edge at most [max_depth] links,
    and a node at most [max_depth + 1] links. *)
Lemma depth_paths_in_run (st : state) :
  passes_through lib net start_url max_pages max_depth same_domain w st →
  directed (G st) = true
  ∧ (∀ u v, (u, v) ∈ edges (G st) → u ∈ nodes (G st) ∧ v ∈ nodes (G st))
  ∧ (∀ u d, (u, d) ∈ q st → 0 ≤ d ∧ nsteps (links_to (G st)) (Z.to_nat d) seed u)
  ∧ (∀ u v, (u, v) ∈ edges (G st) →
       ∃ k, Z.of_nat k ≤ max_depth ∧ nsteps (links_to (G st)) k seed u)
  ∧ (∀ n, n ∈ nodes (G st) →
       ∃ k, Z.of_nat k ≤ max_depth + 1 ∧ nsteps (links_to (G st)) k seed n).
Proof.
  revert st.
  apply (run_invariant lib net max_pages max_depth same_domain _ (λ _, True)
    (λ url depth s,
       (0 ≤ depth ≤ max_depth ∧ nsteps (links_to (G s)) (Z.to_nat depth) seed url)
       ∧ directed (G s) = true
       ∧ (∀ u v, (u, v) ∈ edges (G s) → u ∈ nodes (G s) ∧ v ∈ nodes (G s))
       ∧ (∀ u d, (u, d) ∈ q s → 0 ≤ d ∧ nsteps (links_to (G s)) (Z.to_nat d) seed u)
       ∧ (∀ u v, (u, v) ∈ edges (G s) →
            ∃ k, Z.of_nat k ≤ max_depth ∧ nsteps (links_to (G s)) k seed u)
       ∧ (∀ n, n ∈ nodes (G s) →
            ∃ k, Z.of_nat k ≤ max_depth + 1 ∧ nsteps (links_to (G s)) k seed n))).
  - intros w0 url links _. apply Forall_forall. done.
  - cbn. split_and!; try done.
    intros u d Hin%list_elem_of_singleton. injection Hin as -> ->.
    split; [done|]. constructor.
  - intros st url depth rest w' (Hdir & Hends & Hq & Hsrc & Hnode) Heq. cbn.
    split_and!; try done. intros u d Hin. apply Hq. rewrite Heq. by right.
  - intros st url depth rest w' (Hdir & Hends & Hq & Hsrc & Hnode) Heq Hpc Hd.
    destruct (Hq url depth) as [Hd0 Hpath]; [rewrite Heq; by left|].
    cbn. split_and!; try done.
    + intros u v Hin. destruct (Hends u v Hin). set_solver.
    + intros u d Hin. apply Hq. rewrite Heq. by right.
    + intros n [->%elem_of_singleton|Hn]%elem_of_union; [|by apply Hnode].
      exists (Z.to_nat depth). split; [lia|done].
  - intros url depth s link _ ((Hd & Hpath) & Hdir & Hends & Hq & Hsrc & Hnode).
    destruct (visit_link_cases lib max_pages max_depth same_domain
                (url_netloc lib seed) url depth s link)
      as [->|(_ & _ & HG & Hrest)]; [done|].
    assert (∀ k x, nsteps (links_to (G s)) k seed x →
                   nsteps (links_to (add_edge (G s) url link)) k seed x) as Hmono.
    { intros k x. apply nsteps_mono. intros a b. apply links_to_add_edge. }
    assert (nsteps (links_to (add_edge (G s) url link)) (S (Z.to_nat depth)) seed link)
      as Hlink.
    { eapply nsteps_r; [by apply Hmono|]. by apply links_to_add_edge_new. }
    rewrite HG. rewrite edges_add_edge_directed by done.
    assert (nodes (add_edge (G s) url link) = {[url; link]} ∪ nodes (G s)) as -> by done.
    assert (directed (add_edge (G s) url link) = true) as -> by done.
    split_and!; try done; try lia.
    + by apply Hmono.
    + intros u v [Heq%elem_of_singleton|Hin]%elem_of_union.
      * injection Heq as -> ->. set_solver.
      * destruct (Hends u v Hin). set_solver.
    + destruct Hrest as [(_ & -> & _)|(_ & Hm & _ & -> & _)].
      * intros u d Hin. destruct (Hq u d Hin). split; [done|by apply Hmono].
      * intros u d [Hin|Hin%list_elem_of_singleton]%elem_of_app.
        -- destruct (Hq u d Hin). split; [done|by apply Hmono].
        -- injection Hin as -> ->. split; [lia|].
           replace (Z.to_nat (depth + 1)) with (S (Z.to_nat depth)) by lia. done.
    + intros u v [Heq%elem_of_singleton|Hin]%elem_of_union.
      * injection Heq as -> ->. exists (Z.to_nat depth). split; [lia|by apply Hmono].
      * destruct (Hsrc u v Hin) as (k & Hk & Hp). exists k. split; [done|by apply Hmono].
    + intros n [Hn|Hn]%elem_of_union.
      * apply elem_of_union in Hn as [Hn|Hn]; apply elem_of_singleton in Hn; subst n.
        -- exists (Z.to_nat depth). split; [lia|by apply Hmono].
        -- exists (S (Z.to_nat depth)). split; [lia|done].
      * destruct (Hnode n Hn) as (k & Hk & Hp). exists k. split; [done|by apply Hmono].
  - intros url depth s (_ & H). exact H.
Qed.

End Paths.

(** ** The connectivity tests *)

Section Reach.
Variable E : gset (string * string).

Lemma elem_of_successors (S : gset string) (v : string) :
  v ∈ successors E S ↔ ∃ u, u ∈ S ∧ (u, v) ∈ E.
Proof.
  unfold successors. rewrite elem_of_map. split.
  - intros ([a b] & -> & Hin). apply elem_of_filter in Hin as [Ha Hin]. by exists a.
  - intros (u & Hu & Hin). exists (u, v). split; [done|]. by apply elem_of_filter.
Qed.

Lemma reach_succ (k : nat) (s : string) :
  reach E (S k) s = reach E k s ∪ successors E (reach E k s).
Proof. reflexivity. Qed.

Lemma reach_start (k : nat) (s : string) : s ∈ reach E k s.
Proof.
  induction k as [|k IH]; [by apply elem_of_singleton|].
  rewrite reach_succ. apply elem_of_union. by left.
Qed.

Lemma reach_within (V : gset string) (k : nat) (s : string) :
  s ∈ V → (∀ u v, (u, v) ∈ E → v ∈ V) → reach E k s ⊆ V.
Proof.
  intros Hs Hends. induction k as [|k IH]; [by apply singleton_subseteq_l|].
  rewrite reach_succ. apply union_least; [done|].
  intros v (u & _ & Hin)%elem_of_successors. by eapply Hends.
Qed.

(** After [k] rounds the set is closed under the edges or has more than
    [k] elements. *)
Lemma reach_closed_or_grows (k : nat) (s : string) :
  successors E (reach E k s) ⊆ reach E k s ∨ (k < size (reach E k s))%nat.
Proof.
  induction k as [|k IH].
  - right. cbn. rewrite size_singleton. lia.
  - destruct (decide (successors E (reach E k s) ⊆ reach E k s)) as [Hclosed|Hopen].
    + left. rewrite reach_succ.
      assert (reach E k s ∪ successors E (reach E k s) = reach E k s) as ->
        by set_solver.
      done.
    + right. destruct IH as [Hclosed|Hsize]; [done|].
      assert (reach E k s ⊂ reach E (S k) s) as Hsub.
      { rewrite reach_succ. split; [apply union_subseteq_l|].
        intros Hback. apply Hopen. etrans; [|exact Hback]. apply union_subseteq_r. }
      apply subset_size in Hsub. lia.
Qed.

(** [reach] with as many rounds as there are nodes finds every node that a
    path leads to. *)
Lemma reach_complete (V : gset string) (s n : string) :
  s ∈ V → (∀ u v, (u, v) ∈ E → v ∈ V) →
  rtc (λ u v, (u, v) ∈ E) s n → n ∈ reach E (size V) s.
Proof.
  intros Hs Hends Hpath.
  assert (successors E (reach E (size V) s) ⊆ reach E (size V) s) as Hclosed.
  { destruct (reach_closed_or_grows (size V) s) as [?|Hsize]; [done|].
    pose proof (subseteq_size _ _ (reach_within V (size V) s Hs Hends)). lia. }
  revert n Hpath. apply rtc_ind_r; [apply reach_start|].
  intros y z _ Hyz IH. apply Hclosed, elem_of_successors. by exists y.
Qed.

End Reach.

Lemma elem_of_symmetric_closure (E : gset (string * string)) (a b : string) :
  (a, b) ∈ symmetric_closure E ↔ (a, b) ∈ E ∨ (b, a) ∈ E.
Proof.
  unfold symmetric_closure. rewrite elem_of_union, elem_of_map. split.
  - intros [?|([x y] & Heq & Hin)]; [by left|]. cbn in Heq. injection Heq as -> ->.
    by right.
  - intros [?|?]; [by left|]. right. by exists (b, a).
Qed.

Lemma rtc_reverse {A : Type} (R R' : relation A) x y :
  (∀ a b, R a b → R' b a) → rtc R x y → rtc R' y x.
Proof.
  intros Hrev. induction 1 as [|x y z Hxy Hyz IH]; [done|].
  eapply rtc_r; [exact IH|]. by apply Hrev.
Qed.

(** A directed graph in which a path leads from one node to every node is
    weakly connected for networkx. *)
Lemma rooted_graph_weakly_connected (g : Graph) (root : string) :
  directed g = true →
  number_of_nodes g ≠ 0%nat →
  (∀ u v, (u, v) ∈ edges g → u ∈ nodes g ∧ v ∈ nodes g) →
  (∀ n, n ∈ nodes g → rtc (WebsiteGraph.links_to g) root n) →
  nx_is_weakly_connected g = Ok true.
Proof.
  intros Hdir Hne Hends Hroot. unfold nx_is_weakly_connected.
  rewrite Hdir. cbn [negb]. rewrite bool_decide_eq_false_2 by done.
  f_equal. apply bool_decide_eq_true. intros s Hs n Hn.
  apply (reach_complete _ (nodes g)); [done| |].
  - intros u v [Hin|Hin]%elem_of_symmetric_closure; by destruct (Hends _ _ Hin).
  - etrans.
    + eapply (rtc_reverse (WebsiteGraph.links_to g)); [|by apply Hroot].
      intros a b Hab. apply elem_of_symmetric_closure. by right.
    + eapply rtc_subrel; [|by apply Hroot].
      intros a b Hab. apply elem_of_symmetric_closure. by left.
Qed.

(** ** Further properties of a run of [build_website_graph] *)

Lemma collect_links_no_trailing_slash (lib : Urllib) (url : string) (hrefs : list string) :
  Forall (λ l, Str.ends_with "/"%char l = false) (WebsiteGraph.collect_links lib url hrefs).
Proof.
  induction hrefs as [|h hrefs IH]; cbn; [constructor|].
  case_match; [done|]. constructor; [apply rstrip_slashes_no_trailing|done].
Qed.

Section CrawlProperties.
Import WebsiteGraph.
Context {World Page : Type}.
Variable lib : Urllib.
Variable net : Net World Page.

Abbreviation state := (@state World).

Lemma extract_links_no_trailing_slash (w : World) (url : string) (links : list string) :
  (extract_links lib net w url).1 = Ok links →
  Forall (λ l, Str.ends_with "/"%char l = false) links.
Proof.
  unfold extract_links. destruct (requests_get net w url USER_AGENT 5) as [[page|e] w'].
  - destruct (anchor_hrefs net page) as [hrefs|e]; cbn; [|done].
    intros [= <-]. apply collect_links_no_trailing_slash.
  - cbn. intros [= <-]. constructor.
Qed.

Section OneRun.
Variables (start_url : string) (max_pages max_depth : Z) (same_domain : bool) (w : World).

Abbreviation seed := (normalize_url lib start_url EmptyString).
Abbreviation run_state := (passes_through lib net start_url max_pages max_depth same_domain w).

Abbreviation accepted := (let_through lib same_domain seed).

(** Every URL ever queued is the seed or was let through by the link loop;
    the edges start at queued URLs and lead to URLs that were let through;
    the nodes are of one of the two kinds. *)
Lemma accepted_in_run (st : state) :
  run_state st →
  (∃ popped, enqueued st = (popped ++ (q st).*1)%list)
  ∧ (∀ u, u ∈ enqueued st → u = seed ∨ accepted u)
  ∧ (∀ u v, (u, v) ∈ edges (G st) → u ∈ enqueued st ∧ accepted v)
  ∧ (∀ n, n ∈ nodes (G st) → n ∈ enqueued st ∨ accepted n).
Proof.
  revert st.
  apply (run_invariant lib net max_pages max_depth same_domain _
    (λ l, Str.ends_with "/"%char l = false)
    (λ url depth s,
       url ∈ enqueued s
       ∧ (∃ popped, enqueued s = (popped ++ (q s).*1)%list)
       ∧ (∀ u, u ∈ enqueued s → u = seed ∨ accepted u)
       ∧ (∀ u v, (u, v) ∈ edges (G s) → u ∈ enqueued s ∧ accepted v)
       ∧ (∀ n, n ∈ nodes (G s) → n ∈ enqueued s ∨ accepted n))).
  - apply extract_links_no_trailing_slash.
  - cbn. split_and!; [by exists []| | |].
    + intros u Hu%list_elem_of_singleton. by left.
    + intros u v Hin. by apply not_elem_of_empty in Hin.
    + intros n Hin. by apply not_elem_of_empty in Hin.
  - intros st url depth rest w' ([popped Hq] & Henq & Hedge & Hnode) Heq. cbn.
    split_and!; try done. exists (popped ++ [url])%list.
    rewrite Hq, Heq. cbn. by rewrite <- app_assoc.
  - intros st url depth rest w' ([popped Hq] & Henq & Hedge & Hnode) Heq Hpc Hd. cbn.
    assert (url ∈ enqueued st) as Hurl.
    { rewrite Hq, Heq. cbn. apply elem_of_app. right. by left. }
    split_and!; try done.
    + exists (popped ++ [url])%list. rewrite Hq, Heq. cbn. by rewrite <- app_assoc.
    + intros n [->%elem_of_singleton|Hn]%elem_of_union; [by left|by apply Hnode].
  - intros url depth s link Hslash HP.
    destruct (visit_link_cases lib max_pages max_depth same_domain
                (url_netloc lib seed) url depth s link)
      as [->|(Hv & Hdom & HG & Hrest)]; [exact HP|].
    destruct HP as (Hurl & [popped Hq] & Henq & Hedge & Hnode).
    assert (accepted link) as Hlink by done.
    assert (nodes (add_edge (G s) url link) = {[url; link]} ∪ nodes (G s)) as Hnodes by done.
    rewrite HG, Hnodes.
    destruct Hrest as [(_ & -> & ->)|(_ & _ & _ & -> & ->)].
    + split_and!; try done; [by exists popped| |].
      * intros u v [Heq|Hin]%elem_of_edges_add_edge; [|by apply Hedge].
        by injection Heq as -> ->.
      * intros n [Hn|Hn]%elem_of_union; [|by apply Hnode].
        apply elem_of_union in Hn as [Hn|Hn]; apply elem_of_singleton in Hn; subst n;
          [by left|by right].
    + split_and!.
      * apply elem_of_app. by left.
      * exists popped. rewrite fmap_app, Hq. cbn. by rewrite app_assoc.
      * intros u [Hu|Hu%list_elem_of_singleton]%elem_of_app; [by apply Henq|].
        subst u. by right.
      * intros u v [Heq|Hin]%elem_of_edges_add_edge.
        -- injection Heq as -> ->. split; [|done]. apply elem_of_app. by left.
        -- destruct (Hedge u v Hin). split; [|done]. apply elem_of_app. by left.
      * intros n [Hn|Hn]%elem_of_union.
        -- apply elem_of_union in Hn as [Hn|Hn]; apply elem_of_singleton in Hn; subst n;
             [left; apply elem_of_app; by left|by right].
        -- destruct (Hnode n Hn); [left; apply elem_of_app; by left|by right].
  - intros url depth s (_ & H). exact H.
Qed.

(** With [same_domain], the crawler does not leave the host of the seed:
    every URL ever put on the queue, and so every page requested, and every
    node of the finished graph has the host of the seed. *)
Theorem crawl_stays_on_seed_host :
  same_domain = true →
  (∀ st u, run_state st → u ∈ enqueued st → url_netloc lib u = url_netloc lib seed)
  ∧ (∀ n, n ∈ nodes (build_website_graph lib net start_url max_pages max_depth same_domain w) →
       url_netloc lib n = url_netloc lib seed).
Proof.
  intros Hsame.
  assert (∀ st u, run_state st → u ∈ enqueued st →
                  url_netloc lib u = url_netloc lib seed) as Hqueued.
  { intros st u Hst Hu. destruct (accepted_in_run st Hst) as (_ & Henq & _).
    destruct (Henq u Hu) as [->|(_ & Hd & _)]; [done|by apply Hd]. }
  split; [exact Hqueued|]. intros n Hn.
  pose proof (crawl_passes_through lib net start_url max_pages max_depth same_domain w) as Hst.
  destruct (accepted_in_run _ Hst) as (_ & _ & _ & Hnode).
  destruct (Hnode n Hn) as [Hq|(_ & Hd & _)]; [by eapply Hqueued|by apply Hd].
Qed.

(** Apart from the seed, which is not checked, every URL ever put on the
    queue and every node of the finished graph has the scheme http or
    https. *)
Theorem crawl_keeps_valid_schemes :
  (∀ st u, run_state st → u ∈ enqueued st → u = seed ∨ is_valid_scheme lib u = true)
  ∧ (∀ n, n ∈ nodes (build_website_graph lib net start_url max_pages max_depth same_domain w) →
       n = seed ∨ is_valid_scheme lib n = true).
Proof.
  assert (∀ st u, run_state st → u ∈ enqueued st →
                  u = seed ∨ is_valid_scheme lib u = true) as Hqueued.
  { intros st u Hst Hu. destruct (accepted_in_run st Hst) as (_ & Henq & _).
    destruct (Henq u Hu) as [->|(Hv & _)]; [by left|by right]. }
  split; [exact Hqueued|]. intros n Hn.
  pose proof (crawl_passes_through lib net start_url max_pages max_depth same_domain w) as Hst.
  destruct (accepted_in_run _ Hst) as (_ & _ & _ & Hnode).
  destruct (Hnode n Hn) as [Hq|(Hv & _)]; [by eapply Hqueued|by right].
Qed.

(** No node of the finished graph ends in a slash: the seed and every link
    are normalized before they are used. *)
Theorem crawl_nodes_have_no_trailing_slash (n : string) :
  n ∈ nodes (build_website_graph lib net start_url max_pages max_depth same_domain w) →
  Str.ends_with "/"%char n = false.
Proof.
  intros Hn.
  pose proof (crawl_passes_through lib net start_url max_pages max_depth same_domain w) as Hst.
  destruct (accepted_in_run _ Hst) as (_ & Henq & _ & Hnode).
  destruct (Hnode n Hn) as [Hq|(_ & _ & Hs)]; [|done].
  destruct (Henq n Hq) as [->|(_ & _ & Hs)]; [apply rstrip_slashes_no_trailing|done].
Qed.

(** The depth limit: in the finished graph every page with an outgoing edge
    is at most [max_depth] links away from the seed, and every node at most
    [max_depth + 1] links. *)
Theorem crawl_respects_depth :
  let g := build_website_graph lib net start_url max_pages max_depth same_domain w in
  (∀ u v, (u, v) ∈ edges g → ∃ k, Z.of_nat k ≤ max_depth ∧ nsteps (links_to g) k seed u)
  ∧ (∀ n, n ∈ nodes g → ∃ k, Z.of_nat k ≤ max_depth + 1 ∧ nsteps (links_to g) k seed n).
Proof.
  cbn.
  pose proof (crawl_passes_through lib net start_url max_pages max_depth same_domain w) as Hst.
  destruct (depth_paths_in_run lib net max_pages max_depth same_domain start_url w _ Hst)
    as (_ & _ & _ & Hsrc & Hnode).
  done.
Qed.

(** The finished graph is directed, the ends of its edges are nodes, and a
    path leads from the seed to every node. *)
Lemma crawl_graph_rooted :
  let g := build_website_graph lib net start_url max_pages max_depth same_domain w in
  directed g = true
  ∧ (∀ u v, (u, v) ∈ edges g → u ∈ nodes g ∧ v ∈ nodes g)
  ∧ (∀ n, n ∈ nodes g → rtc (links_to g) seed n).
Proof.
  cbn.
  pose proof (crawl_passes_through lib net start_url max_pages max_depth same_domain w) as Hst.
  destruct (depth_paths_in_run lib net max_pages max_depth same_domain start_url w _ Hst)
    as (Hdir & Hends & _ & _ & Hnode).
  split_and!; [done|done|]. intros n Hn. destruct (Hnode n Hn) as (k & _ & Hp).
  by eapply rtc_nsteps_2.
Qed.

Lemma crawl_graph_label (shapes : Shapes) :
  let g := build_website_graph lib net start_url max_pages max_depth same_domain w in
  number_of_nodes g ≠ 0%nat →
  classify_graph shapes g = Ok STRONGLY_CONNECTED_DIRECTED
  ∨ classify_graph shapes g = Ok WEAKLY_CONNECTED_DIRECTED.
Proof.
  intros g Hne. destruct crawl_graph_rooted as (Hdir & Hends & Hroot). fold g in Hdir, Hends, Hroot.
  pose proof (rooted_graph_weakly_connected g seed Hdir Hne Hends Hroot) as Hweak.
  unfold classify_graph, try_except, nx_is_strongly_connected. rewrite Hdir. cbn [negb].
  rewrite bool_decide_eq_false_2 by done. cbn.
  destruct (all_reach_all (nodes g) (edges g)); [by left|].
  rewrite Hweak. by right.
Qed.

(** A finished graph with at least one node is never classified as
    disconnected: [classify_graph] returns the strongly or the weakly
    connected label for it. *)
Theorem crawl_graph_is_connected (shapes : Shapes) :
  number_of_nodes (build_website_graph lib net start_url max_pages max_depth same_domain w)
    ≠ 0%nat →
  classify_graph shapes
    (build_website_graph lib net start_url max_pages max_depth same_domain w)
    = Ok STRONGLY_CONNECTED_DIRECTED
  ∨ classify_graph shapes
      (build_website_graph lib net start_url max_pages max_depth same_domain w)
    = Ok WEAKLY_CONNECTED_DIRECTED.
Proof. apply crawl_graph_label. Qed.

End OneRun.
End CrawlProperties.

(** ** Degrees *)

Lemma foldr_sum_split {A : Type} (a b : A → nat) (l : list A) :
  foldr (λ n acc, (a n + b n + acc)%nat) 0%nat l
  = (foldr (λ n acc, (a n + acc)%nat) 0%nat l + foldr (λ n acc, (b n + acc)%nat) 0%nat l)%nat.
Proof. induction l as [|x l IH]; cbn; lia. Qed.

(** The edges whose end [f e] is one of the nodes of [l], counted node by
    node. *)
Lemma sum_of_edge_ends (f : string * string → string) (E : gset (string * string))
    (l : list string) :
  NoDup l →
  foldr (λ n acc, (size (filter (λ e, f e = n) E) + acc)%nat) 0%nat l
  = size (filter (λ e, f e ∈ l) E).
Proof.
  induction 1 as [|n l Hn Hnd IH]; cbn.
  - symmetry. apply size_empty_iff. intros e. rewrite elem_of_filter, elem_of_nil.
    set_solver.
  - rewrite IH.
    assert (filter (λ e, f e ∈ n :: l) E
            = filter (λ e, f e = n) E ∪ filter (λ e, f e ∈ l) E) as ->.
    { apply set_eq. intros e. rewrite elem_of_union, !elem_of_filter, elem_of_cons. tauto. }
    rewrite size_union; [done|].
    intros e [He _]%elem_of_filter [He' _]%elem_of_filter. by subst n.
Qed.

(** In a graph whose edges end at nodes, the degrees add up to twice the
    number of edges. *)
Lemma sum_of_degrees_twice_edges (g : Graph) :
  (∀ u v, (u, v) ∈ edges g → u ∈ nodes g ∧ v ∈ nodes g) →
  sum_of_degrees g = (2 * number_of_edges g)%nat.
Proof.
  intros Hends. unfold sum_of_degrees, degree, number_of_edges.
  rewrite (foldr_sum_split (λ n, size (filter (λ e, e.1 = n) (edges g)))
                           (λ n, size (filter (λ e, e.2 = n) (edges g)))).
  rewrite !sum_of_edge_ends by apply NoDup_elements.
  assert (∀ f : string * string → string,
            (∀ e, e ∈ edges g → f e ∈ nodes g) →
            filter (λ e, f e ∈ elements (nodes g)) (edges g) = edges g) as Hall.
  { intros f Hf. apply set_eq. intros e. rewrite elem_of_filter, elem_of_elements.
    split; [tauto|]. intros He. split; [by apply Hf|done]. }
  rewrite !Hall; [lia| |]; intros [u v] He; by destruct (Hends u v He).
Qed.

Section CrawlStats.
Import WebsiteGraph.
Context {World Page : Type}.
Variable lib : Urllib.
Variable net : Net World Page.
Variable shapes : Shapes.

Lemma crawl_graph_stats_value start_url max_pages max_depth same_domain (w : World) :
  let g := build_website_graph lib net start_url max_pages max_depth same_domain w in
  number_of_nodes g ≠ 0%nat →
  ∃ c, (c = STRONGLY_CONNECTED_DIRECTED ∨ c = WEAKLY_CONNECTED_DIRECTED)
       ∧ graph_stats shapes g
         = Ok {| classification := c;
                 stat_nodes := number_of_nodes g;
                 stat_edges := number_of_edges g;
                 average_degree :=
                   Qmake (Z.of_nat (2 * number_of_edges g))
                         (Pos.of_nat (number_of_nodes g)) |}.
Proof.
  intros g Hne.
  destruct (crawl_graph_rooted lib net start_url max_pages max_depth same_domain w)
    as (_ & Hends & _). fold g in Hends.
  unfold graph_stats. rewrite bool_decide_eq_true_2 by done.
  rewrite (sum_of_degrees_twice_edges g Hends).
  destruct (crawl_graph_label lib net start_url max_pages max_depth same_domain w shapes Hne)
    as [Hc|Hc]; fold g in Hc; rewrite Hc; cbn; eauto.
Qed.

(** For a finished graph with at least one node, [graph_stats] returns: the
    label is the strongly or the weakly connected one, and the average
    degree is twice the number of edges divided by the number of nodes. *)
Theorem crawl_graph_stats start_url max_pages max_depth same_domain (w : World) :
  let g := build_website_graph lib net start_url max_pages max_depth same_domain w in
  number_of_nodes g ≠ 0%nat →
  ∃ c, (c = STRONGLY_CONNECTED_DIRECTED ∨ c = WEAKLY_CONNECTED_DIRECTED)
       ∧ graph_stats shapes g
         = Ok {| classification := c;
                 stat_nodes := number_of_nodes g;
                 stat_edges := number_of_edges g;
                 average_degree :=
                   Qmake (Z.of_nat (2 * number_of_edges g))
                         (Pos.of_nat (number_of_nodes g)) |}.
Proof. apply crawl_graph_stats_value. Qed.

End CrawlStats.

(** ** Budgets, order and growth *)

Section CrawlBounds.
Import WebsiteGraph.
Context {World Page : Type}.
Variable lib : Urllib.
Variable net : Net World Page.
Variables (start_url : string) (max_pages max_depth : Z) (same_domain : bool) (w : World).

Abbreviation state := (@state World).
Abbreviation seed := (normalize_url lib start_url EmptyString).
Abbreviation domain := (url_netloc lib (normalize_url lib start_url EmptyString)).
Abbreviation run_state := (passes_through lib net start_url max_pages max_depth same_domain w).
Abbreviation final := (crawl lib net start_url max_pages max_depth same_domain w).


(** The queue is in breadth-first order: it holds a run of entries of one
    depth [d], followed by a run of entries of depth [d + 1]. *)
Theorem queue_is_breadth_first (st : state) :
  passes_through lib net start_url max_pages max_depth same_domain w st →
  ∃ d a b, 0 ≤ d ∧ (q st).*2 = (replicate a d ++ replicate b (d + 1))%list.
Proof.
  revert st.
  assert (∀ (l : list (string * Z)) url depth (d : Z) a b,
            0 ≤ d → ((url, depth) :: l).*2 = (replicate a d ++ replicate b (d + 1))%list →
            0 ≤ depth ∧ ∃ a' b', l.*2 = (replicate a' depth ++ replicate b' (depth + 1))%list)
    as Hpop.
  { intros l url depth d a b Hd Heq. cbn in Heq. destruct a as [|a]; cbn in Heq.
    - destruct b as [|b]; cbn in Heq; [done|]. injection Heq as -> Heq.
      split; [lia|]. exists b, 0%nat. rewrite Heq. cbn. by rewrite app_nil_r.
    - injection Heq as -> Heq. split; [done|]. by exists a, b. }
  apply (run_invariant lib net max_pages max_depth same_domain _ (λ _, True)
    (λ url depth s,
       0 ≤ depth ∧ ∃ a b, (q s).*2 = (replicate a depth ++ replicate b (depth + 1))%list)).
  - intros w0 url links _. by apply Forall_forall.
  - exists 0, 1%nat, 0%nat. done.
  - intros st url depth rest w' (d & a & b & Hd & Heq) Hq. cbn. rewrite Hq in Heq.
    destruct (Hpop _ _ _ _ _ _ Hd Heq) as (Hd' & a' & b' & Heq'). by exists depth, a', b'.
  - intros st url depth rest w' (d & a & b & Hd & Heq) Hq _ _. cbn. rewrite Hq in Heq.
    by apply (Hpop _ _ _ _ _ _ Hd Heq).
  - intros url depth s link _ (Hd & a & b & Heq).
    destruct (visit_link_cases lib max_pages max_depth same_domain domain url depth s link)
      as [->|(_ & _ & _ & [(_ & -> & _)|(_ & _ & _ & -> & _)])]; [by eauto|by eauto|].
    split; [done|]. exists a, (S b). rewrite fmap_app, Heq.
    by rewrite replicate_S_end, app_assoc.
  - intros url depth s (Hd & a & b & Heq). by exists depth, a, b.
Qed.

Lemma budget_kept_in_run (st : state) :
  run_state st → budget_kept max_pages st.
Proof.
  apply (passes_through_invariant lib net (budget_kept max_pages)).
  - unfold budget_kept, crawled_pages. cbn. split_and!; [done|lia| | |].
    + apply NoDup_singleton.
    + intros u d Hin%list_elem_of_singleton. injection Hin as -> ->.
      by apply elem_of_singleton.
    + exists ∅. split_and!; done.
  - intros s s'. apply iteration_budget_kept.
Qed.

(** The loop stops with an empty queue, or after exactly [max_pages]
    pages. *)
Theorem crawl_stops_when :
  0 ≤ max_pages →
  q (crawl lib net start_url max_pages max_depth same_domain w) = []
  ∨ pages_crawled (crawl lib net start_url max_pages max_depth same_domain w) = max_pages.
Proof.
  intros Hmp.
  destruct (crawl_finished lib net start_url max_pages max_depth same_domain w) as [?|Hge];
    [by left|right].
  destruct (budget_kept_in_run final) as (_ & Hle & _); [apply crawl_passes_through|].
  lia.
Qed.

(** The two counters of the loop do no more than count: with enough of
    them the result does not depend on them. *)
Lemma loop_from_enough b : ∀ k b' k' (st : state),
  (Z.to_nat (max_pages - pages_crawled st) ≤ b)%nat → (length (q st) ≤ k)%nat →
  (Z.to_nat (max_pages - pages_crawled st) ≤ b')%nat → (length (q st) ≤ k')%nat →
  loop_from lib net max_pages max_depth same_domain domain b k st
  = loop_from lib net max_pages max_depth same_domain domain b' k' st.
Proof.
  induction b as [|b IHb]; intros k; induction k as [|k IHk];
    intros b' k' st Hb Hk Hb' Hk'; rewrite !loop_from_unfold;
    destruct (iteration lib net max_pages max_depth same_domain domain st)
      as [|st'|st'] eqn:Hit; try done.
  all: first
    [ apply iteration_skipped in Hit
        as (url & depth & rest & Hq & Hpc & _ & _ & Hq' & Hpc' & _);
      rewrite Hq in Hk, Hk'; cbn in Hk, Hk';
      first [ lia
            | destruct k' as [|k']; [lia|];
              apply IHk; rewrite ?Hpc', ?Hq'; lia ]
    | apply iteration_crawled in Hit
        as (url & depth & rest & links & w' & Hq & Hpc & _ & ->);
      first [ lia
            | destruct b' as [|b']; [lia|];
              apply IHb; rewrite ?for_links_pages_crawled; cbn; lia ] ].
Qed.

(** One step of the loop, without counters. *)
Lemma while_loop_step (st st' : state) :
  iteration lib net max_pages max_depth same_domain domain st = Skipped st'
  ∨ iteration lib net max_pages max_depth same_domain domain st = Crawled st' →
  while_loop lib net max_pages max_depth same_domain domain st
  = while_loop lib net max_pages max_depth same_domain domain st'.
Proof.
  intros Hit. unfold while_loop at 1. rewrite loop_from_unfold.
  destruct Hit as [Hit|Hit]; rewrite Hit.
  - apply iteration_skipped in Hit
      as (url & depth & rest & Hq & Hpc & _ & _ & Hq' & Hpc' & _).
    rewrite Hq. cbn [length]. apply loop_from_enough; rewrite ?Hpc', ?Hq'; lia.
  - apply iteration_crawled in Hit
      as (url & depth & rest & links & w' & Hq & Hpc & _ & ->).
    destruct (Z.to_nat (max_pages - pages_crawled st)) as [|b] eqn:Hb; [lia|].
    apply loop_from_enough; rewrite ?for_links_pages_crawled; cbn; lia.
Qed.

(** Every state of the run leads to the final state. *)
Lemma final_reachable (st : state) :
  run_state st →
  reachable lib net max_pages max_depth same_domain domain st final.
Proof.
  intros Hst.
  assert (final = while_loop lib net max_pages max_depth same_domain domain st) as ->.
  { unfold crawl. induction Hst as [|s s' _ IH Hit|s s' _ IH Hit]; [done| |];
      rewrite IH; apply while_loop_step; eauto. }
  apply while_loop_reachable.
Qed.

Lemma visit_link_grows url depth (st : state) link :
  let st' := visit_link lib max_pages max_depth same_domain domain url depth st link in
  nodes (G st) ⊆ nodes (G st') ∧ edges (G st) ⊆ edges (G st')
  ∧ seen st ⊆ seen st' ∧ enqueued st `prefix_of` enqueued st'.
Proof.
  cbn zeta.
  destruct (visit_link_cases lib max_pages max_depth same_domain domain url depth st link)
    as [->|(_ & _ & -> & Hrest)]; [done|].
  assert (nodes (G st) ⊆ nodes (add_edge (G st) url link)) by (cbn; set_solver).
  assert (edges (G st) ⊆ edges (add_edge (G st) url link))
    by (unfold add_edge; cbn; case_match; set_solver).
  destruct Hrest as [(-> & _ & ->)|(_ & _ & -> & _ & ->)]; split_and!; try done.
  - apply union_subseteq_r.
  - by apply prefix_app_r.
Qed.

(** Whatever a state of the run holds is still there at the end: no node,
    no edge and no seen URL is ever removed, the page counter never goes
    down, and the history of the queue is only extended. *)
Theorem crawl_only_grows (st : state) :
  passes_through lib net start_url max_pages max_depth same_domain w st →
  let fin := crawl lib net start_url max_pages max_depth same_domain w in
  nodes (G st) ⊆ nodes (G fin) ∧ edges (G st) ⊆ edges (G fin)
  ∧ seen st ⊆ seen fin ∧ pages_crawled st ≤ pages_crawled fin
  ∧ enqueued st `prefix_of` enqueued fin.
Proof.
  intros Hst. cbn zeta. pose proof (final_reachable st Hst) as Hfin.
  revert Hfin. generalize final. intros fin.
  apply (reachable_invariant lib net max_pages max_depth same_domain domain
    (λ s, nodes (G st) ⊆ nodes (G s) ∧ edges (G st) ⊆ edges (G s)
          ∧ seen st ⊆ seen s ∧ pages_crawled st ≤ pages_crawled s
          ∧ enqueued st `prefix_of` enqueued s)); [done| |].
  - intros s s' HI Hit.
    apply iteration_skipped in Hit as (url & depth & rest & _ & _ & -> & -> & _ & -> & ->).
    done.
  - intros s s' (Hn & He & Hs & Hp & Hh) Hit.
    apply iteration_crawled in Hit as (url & depth & rest & links & w' & _ & _ & _ & ->).
    apply (for_links_invariant lib max_pages max_depth same_domain domain
      (λ s', nodes (G st) ⊆ nodes (G s') ∧ edges (G st) ⊆ edges (G s')
             ∧ seen st ⊆ seen s' ∧ pages_crawled st ≤ pages_crawled s'
             ∧ enqueued st `prefix_of` enqueued s')).
    + intros s0 l (Hn0 & He0 & Hs0 & Hp0 & Hh0).
      destruct (visit_link_grows url depth s0 l) as (? & ? & ? & ?).
      rewrite visit_link_pages_crawled.
      split_and!; [by etrans|by etrans|by etrans|done|by etrans].
    + cbn. split_and!; [|done|done|lia|done]. etrans; [exact Hn|]. apply union_subseteq_r.
Qed.

End CrawlBounds.

(** ** Fragments *)

Lemma split_head_app (c : ascii) (s t : string) :
  Str.contains c s = false → Str.split_head c (s +:+ String c t) = s.
Proof.
  induction s as [|a s IH]; simpl.
  - intros _. by rewrite Ascii.eqb_refl.
  - intros [Ha Hs]%orb_false_iff. rewrite Ha. by rewrite IH.
Qed.

(** A fragment on a link makes no difference to its normal form. *)
Theorem normalize_url_ignores_fragment (lib : Urllib) (base link fragment : string) :
  Str.contains "#"%char link = false →
  WebsiteGraph.normalize_url lib base (link +:+ "#" +:+ fragment)
  = WebsiteGraph.normalize_url lib base link.
Proof.
  intros Hlink. unfold WebsiteGraph.normalize_url.
  assert (link +:+ "#" +:+ fragment = link +:+ String "#"%char fragment) as -> by done.
  rewrite split_head_app by done. by rewrite split_head_fixed.
Qed.

(** ** The pyvis view *)

Lemma length_substring_0 (k : nat) (s : string) :
  String.length (String.substring 0 k s) = Nat.min k (String.length s).
Proof.
  revert s. induction k as [|k IH]; intros [|a s]; simpl; try done. by rewrite IH.
Qed.

Lemma length_string_app (s t : string) :
  String.length (s +:+ t) = (String.length s + String.length t)%nat.
Proof. induction s as [|a s IH]; simpl; [done|]. by rewrite IH. Qed.

Lemma substring_0_app (s t : string) :
  String.substring 0 (String.length s) (s +:+ t) = s.
Proof.
  induction s as [|a s IH]; simpl; [by destruct t|]. by rewrite IH.
Qed.

(** The label of a node in the pyvis view has at most 60 characters, begins
    like the URL (its first 57 characters), and is the URL itself exactly
    when the URL has at most 60 characters. *)
Theorem short_label_bounded (n : string) :
  (String.length (WebsiteGraph.short_label n) ≤ 60)%nat
  ∧ String.substring 0 57 (WebsiteGraph.short_label n) = String.substring 0 57 n
  ∧ (WebsiteGraph.short_label n = n ↔ (String.length n ≤ 60)%nat).
Proof.
  unfold WebsiteGraph.short_label.
  destruct (String.length n <=? 60)%nat eqn:Hlen.
  - apply Nat.leb_le in Hlen. done.
  - apply Nat.leb_gt in Hlen.
    assert (String.length (String.substring 0 57 n) = 57%nat) as Hcut
      by (rewrite length_substring_0; lia).
    split_and!.
    + rewrite length_string_app, Hcut. cbn. lia.
    + rewrite <- Hcut at 1. apply substring_0_app.
    + split; [|lia]. intros Heq. apply (f_equal String.length) in Heq.
      rewrite length_string_app, Hcut in Heq. cbn in Heq. lia.
Qed.

Lemma add_all_nodes_fresh (ns : list string) : ∀ net,
  NoDup ns → (∀ n, n ∈ ns → n ∉ net_node_ids net) →
  WebsiteGraph.add_all_nodes net ns
  = {| net_height := net_height net; net_width := net_width net;
       net_directed := net_directed net;
       net_nodes := net_nodes net
                    ++ ((λ n, {| node_id := n; node_label := WebsiteGraph.short_label n;
                                 node_title := n |}) <$> ns);
       net_edges := net_edges net; net_physics := net_physics net |}.
Proof.
  unfold WebsiteGraph.add_all_nodes.
  induction ns as [|n ns IH]; intros net Hnd Hfresh; cbn.
  - rewrite app_nil_r. by destruct net.
  - apply NoDup_cons in Hnd as [Hn Hnd].
    unfold net_add_node at 2. rewrite bool_decide_eq_false_2 by (apply Hfresh; by left).
    rewrite IH; [|done|].
    + cbn. by rewrite <- app_assoc.
    + intros m Hm. unfold net_node_ids. cbn. rewrite fmap_app. cbn.
      intros [Hin|Hin%list_elem_of_singleton]%elem_of_app.
      * by apply (Hfresh m); [right|].
      * by subst m.
Qed.

Lemma add_all_edges_directed (es : list (string * string)) : ∀ net,
  net_directed net = true →
  (∀ u v, (u, v) ∈ es → u ∈ net_node_ids net ∧ v ∈ net_node_ids net) →
  WebsiteGraph.add_all_edges net es
  = Some {| net_height := net_height net; net_width := net_width net;
            net_directed := net_directed net; net_nodes := net_nodes net;
            net_edges := net_edges net ++ es; net_physics := net_physics net |}.
Proof.
  induction es as [|[u v] es IH]; intros net Hdir Hends; cbn.
  - rewrite app_nil_r. by destruct net.
  - destruct (Hends u v) as [Hu Hv]; [by left|].
    unfold net_add_edge. rewrite !bool_decide_eq_true_2 by done. rewrite Hdir. cbn.
    rewrite IH; [|done|].
    + cbn. by rewrite <- app_assoc.
    + intros a b Hin. apply Hends. by right.
Qed.

(** For a directed graph whose edges end at nodes, [to_pyvis] passes the
    assertions of pyvis and shows the graph as it is. *)
Lemma to_pyvis_directed (g : Graph) (height width : string) :
  directed g = true →
  (∀ u v, (u, v) ∈ edges g → u ∈ nodes g ∧ v ∈ nodes g) →
  ∃ view, WebsiteGraph.to_pyvis g height width = Some view
    ∧ net_directed view = true
    ∧ net_node_ids view = elements (nodes g)
    ∧ net_edges view = elements (edges g)
    ∧ Forall (λ r, node_title r = node_id r
                   ∧ node_label r = WebsiteGraph.short_label (node_id r)) (net_nodes view).
Proof.
  intros Hdir Hends. unfold WebsiteGraph.to_pyvis.
  rewrite add_all_nodes_fresh; [|apply NoDup_elements|].
  2: { intros n _. unfold net_node_ids. cbn. apply not_elem_of_nil. }
  rewrite add_all_edges_directed; cbn; [|done|].
  - eexists. split; [done|]. cbn. split_and!; [done| |done|].
    + unfold net_node_ids. cbn. rewrite <- list_fmap_compose. apply list_fmap_id.
    + apply Forall_fmap, Forall_forall. done.
  - intros u v Hin%elem_of_elements. unfold net_node_ids. cbn.
    rewrite <- list_fmap_compose.
    assert ((node_id ∘ (λ n, {| node_id := n; node_label := WebsiteGraph.short_label n;
                                node_title := n |})) <$> elements (nodes g)
            = elements (nodes g)) as -> by apply list_fmap_id.
    rewrite !elem_of_elements. by apply Hends.
Qed.

Section CrawlViews.
Import WebsiteGraph.
Context {World Page : Type}.
Variable lib : Urllib.
Variable net : Net World Page.
Variables (start_url : string) (max_pages max_depth : Z) (same_domain : bool) (w : World).

Abbreviation crawled_graph :=
  (build_website_graph lib net start_url max_pages max_depth same_domain w).

(** [to_pyvis] never fails on a graph that the crawler built: the view is
    directed, has one node per node of the graph, titled with the full URL
    and labelled with the short label, and has the edges of the graph. *)
Theorem to_pyvis_of_crawl (height width : string) :
  ∃ view, to_pyvis crawled_graph height width = Some view
    ∧ net_directed view = true
    ∧ net_node_ids view ≡ₚ elements (nodes crawled_graph)
    ∧ net_edges view ≡ₚ elements (edges crawled_graph)
    ∧ Forall (λ r, node_title r = node_id r ∧ node_label r = short_label (node_id r))
             (net_nodes view).
Proof.
  destruct (crawl_graph_rooted lib net start_url max_pages max_depth same_domain w)
    as (Hdir & Hends & _).
  destruct (to_pyvis_directed crawled_graph height width Hdir Hends)
    as (view & Hview & Hd & Hn & He & Hrows).
  exists view. rewrite Hn, He. done.
Qed.

(** The page never shows its warning for a graph without nodes.  A start
    URL that does not parse ends the run in [build_website_graph]; on a graph
    without nodes [graph_stats] raises before the test is reached; on any
    other graph of the crawler the metrics are shown and [to_pyvis] builds
    its view, which is handed to the rendering step: the run ends as that
    step does, with the page embedded or with its exception. *)
Theorem app_never_warns (parses : string → bool) (shapes : Shapes)
    (render : Network → option string) :
  let seed := normalize_url lib start_url EmptyString in
  let outcome :=
    App.on_submit parses lib net shapes render start_url max_pages max_depth same_domain w in
  (∀ stats, outcome ≠ App.ZeroNodeWarning stats)
  ∧ (parses seed = false → outcome = App.CrawlFailed)
  ∧ (parses seed = true → number_of_nodes crawled_graph = 0%nat →
     outcome = App.Crashed NetworkXPointlessConcept)
  ∧ (parses seed = true → number_of_nodes crawled_graph ≠ 0%nat →
     ∃ stats view,
       graph_stats shapes crawled_graph = Ok stats
       ∧ to_pyvis crawled_graph "700px" "100%" = Some view
       ∧ outcome = match render view with
                   | Some html => App.GraphShown stats view html
                   | None => App.ViewFailed stats view
                   end).
Proof.
  cbn zeta. unfold App.on_submit, build_website_graph_or_raise.
  fold crawled_graph.
  destruct (crawl_graph_rooted lib net start_url max_pages max_depth same_domain w)
    as (Hdir & Hends & _).
  assert (number_of_nodes crawled_graph = 0%nat →
          App.show shapes render crawled_graph = App.Crashed NetworkXPointlessConcept)
    as Hzero.
  { intros Hzero. unfold App.show, graph_stats, classify_graph, try_except,
      nx_is_strongly_connected. rewrite Hdir. cbn [negb].
    by rewrite (bool_decide_eq_true_2 _ Hzero). }
  assert (number_of_nodes crawled_graph ≠ 0%nat →
          ∃ stats view,
            graph_stats shapes crawled_graph = Ok stats
            ∧ to_pyvis crawled_graph "700px" "100%" = Some view
            ∧ App.show shapes render crawled_graph
              = match render view with
                | Some html => App.GraphShown stats view html
                | None => App.ViewFailed stats view
                end) as Hnodes.
  { intros Hne. unfold App.show.
    destruct (crawl_graph_stats_value lib net shapes start_url max_pages max_depth
                same_domain w Hne)
      as (c & _ & ->).
    rewrite bool_decide_eq_false_2 by done.
    destruct (to_pyvis_directed crawled_graph "700px" "100%" Hdir Hends)
      as (view & -> & _).
    by eexists _, _. }
  destruct (parses (normalize_url lib start_url EmptyString)); cbn [fst];
    (split_and!; [|done..]); [|done].
  intros stats.
  destruct (decide (number_of_nodes crawled_graph = 0%nat)) as [H0|Hne].
  - by rewrite (Hzero H0).
  - destruct (Hnodes Hne) as (stats' & view & _ & _ & ->). by destruct (render view).
Qed.

End CrawlViews.

(** ** The classifiers *)

Section MoreClassifierFacts.
Variable shapes : Shapes.

(** [classify_graph] of [website_graph.py] returns a label for every graph
    with a node and for every undirected graph, and the label is never the
    one of its [except] branch: the only input on which it fails is the
    empty directed graph. *)
Theorem classify_graph_total_on_nodes (g : Graph) :
  WebsiteGraph.classify_graph shapes g ≠ Ok DIRECTED_UNKNOWN
  ∧ (number_of_nodes g ≠ 0%nat ∨ directed g = false →
     ∃ l, WebsiteGraph.classify_graph shapes g = Ok l).
Proof.
  split.
  - unfold WebsiteGraph.classify_graph, try_except, nx_is_strongly_connected,
      nx_is_weakly_connected, nx_is_connected, number_of_nodes,
      STRONGLY_CONNECTED_DIRECTED, WEAKLY_CONNECTED_DIRECTED, DISCONNECTED_DIRECTED,
      DIRECTED_UNKNOWN, EMPTY.
    destruct (directed g); cbn; case_bool_decide; cbn; repeat case_match;
      simplify_eq; done.
  - intros Hok. destruct (WebsiteGraph.classify_graph shapes g) as [l|e] eqn:Hc; [by exists l|].
    apply classify_graph_raises in Hc as (_ & Hdir & Hzero). destruct Hok; congruence.
Qed.

(** [classify_graph] of [web_diver.py] fails on directed graphs and on the
    graph without nodes. *)
Lemma web_diver_classify_needs_nodes (g : Graph) (l : label) :
  WebDiver.classify_graph shapes g = Ok l →
  directed g = false ∧ number_of_nodes g ≠ 0%nat.
Proof.
  unfold WebDiver.classify_graph, nx_is_connected, number_of_nodes.
  destruct (directed g); cbn; [done|].
  case_bool_decide as Hn; cbn; done.
Qed.

(** [classify_graph] of [web_diver.py] returns only for an undirected graph
    with a node, and then one of its five undirected labels: the three
    directed labels are never returned, because [nx.is_connected] is asked
    first and is not implemented for directed graphs. *)
Theorem web_diver_classify_undirected_only (g : Graph) (l : label) :
  WebDiver.classify_graph shapes g = Ok l →
  directed g = false ∧ number_of_nodes g ≠ 0%nat
  ∧ l ∈ ["Bipartite Connected Graph"; "Tree"; "Connected Forest Graph";
         "Cyclic Graph"; "Acyclical Graph"].
Proof.
  unfold WebDiver.classify_graph, nx_is_connected, number_of_nodes.
  destruct (directed g); cbn; [done|].
  case_bool_decide as Hn; cbn; [done|].
  intros Hl. split_and!; [done|done|].
  repeat case_match; injection Hl as <-; set_solver.
Qed.

(** In [web_diver.py] the bipartite test comes before the tree test; a tree
    being bipartite, the label "Tree" is never returned. *)
Theorem web_diver_never_tree (g : Graph) :
  (∀ h, nx_is_tree shapes h = true → nx_is_bipartite shapes h = true) →
  WebDiver.classify_graph shapes g ≠ Ok "Tree".
Proof.
  intros Htree. unfold WebDiver.classify_graph, nx_is_connected.
  destruct (directed g); cbn; [done|].
  case_bool_decide; cbn; [done|].
  destruct (all_reach_all _ _).
  - destruct (nx_is_bipartite shapes g) eqn:Hb; [done|].
    destruct (nx_is_tree shapes g) eqn:Ht; [|done]. apply Htree in Ht. congruence.
  - by case_match.
Qed.

(** [graph_stats] of [web_diver.py] never gets to divide by zero, although
    its division is not guarded: on a graph without nodes the classifier has
    failed before.  When it returns, the graph is undirected and has a node,
    and the average degree is the degree sum divided by the node count. *)
Theorem web_diver_graph_stats_returns (g : Graph) :
  WebDiver.graph_stats shapes g ≠ Raise ZeroDivisionError
  ∧ ∀ c m, WebDiver.graph_stats shapes g = Ok (c, m) →
      directed g = false ∧ WebDiver.metric_nodes m ≠ 0%nat
      ∧ WebDiver.metric_average_degree m
        = Qmake (Z.of_nat (sum_of_degrees g)) (Pos.of_nat (number_of_nodes g)).
Proof.
  unfold WebDiver.graph_stats.
  destruct (WebDiver.classify_graph shapes g) as [l|e] eqn:Hc; cbn.
  - apply web_diver_classify_needs_nodes in Hc as (Hdir & Hn).
    unfold WebDiver.true_div. rewrite bool_decide_eq_false_2 by done. cbn.
    split; [done|]. intros c m [= <- <-]. done.
  - split; [|done]. intros [= ->]. revert Hc.
    unfold WebDiver.classify_graph, nx_is_connected, nx_is_strongly_connected,
      nx_is_weakly_connected.
    destruct (directed g); cbn; [done|]. case_bool_decide; cbn; [done|].
    by repeat case_match.
Qed.

End MoreClassifierFacts.

(** ** The further properties on concrete sites *)

Section MoreExamples.
Import WebsiteGraph.

Abbreviation chain_net := (Sample.net_of Sample.chain_site Sample.allow_all).
Abbreviation fan_net := (Sample.net_of Sample.fan_site Sample.allow_all).

(** With a budget of two pages the fan site leaves one entry on the queue. *)
Lemma queue_is_breadth_first_fan :
  let st := crawl Sample.urllib_sample fan_net "http://a.com/" 2 2 true [] in
  q st = [("http://a.com/c", 1)]
  ∧ ∃ d a b, 0 ≤ d ∧ (q st).*2 = (replicate a d ++ replicate b (d + 1))%list.
Proof.
  split; [reflexivity|].
  apply (queue_is_breadth_first Sample.urllib_sample fan_net "http://a.com/" 2 2 true []).
  apply crawl_passes_through.
Defined.

Lemma crawl_stays_on_seed_host_chain :
  url_netloc Sample.urllib_sample "http://a.com/d" = "a.com".
Proof.
  apply (crawl_stays_on_seed_host Sample.urllib_sample chain_net "http://a.com/" 10 2 true []);
    [reflexivity|].
  vm_compute. reflexivity.
Defined.

Lemma crawl_keeps_valid_schemes_chain :
  "http://a.com/d" = "http://a.com"
  ∨ is_valid_scheme Sample.urllib_sample "http://a.com/d" = true.
Proof.
  apply (crawl_keeps_valid_schemes Sample.urllib_sample chain_net "http://a.com/" 10 2 false []).
  vm_compute. reflexivity.
Defined.

Lemma crawl_nodes_have_no_trailing_slash_chain :
  Str.ends_with "/"%char "http://a.com/b" = false.
Proof.
  apply (crawl_nodes_have_no_trailing_slash Sample.urllib_sample chain_net
           "http://a.com/" 10 2 true []).
  vm_compute. reflexivity.
Defined.

Lemma crawl_respects_depth_chain :
  let g := build_website_graph Sample.urllib_sample chain_net "http://a.com/" 10 1 true [] in
  ∃ k, Z.of_nat k ≤ 1 + 1 ∧ nsteps (links_to g) k "http://a.com" "http://a.com/c".
Proof.
  apply (crawl_respects_depth Sample.urllib_sample chain_net "http://a.com/" 10 1 true []).
  vm_compute. reflexivity.
Defined.

Lemma crawl_graph_is_connected_chain :
  let g := build_website_graph Sample.urllib_sample chain_net "http://a.com/" 10 2 true [] in
  classify_graph Sample.no_shapes g = Ok STRONGLY_CONNECTED_DIRECTED
  ∨ classify_graph Sample.no_shapes g = Ok WEAKLY_CONNECTED_DIRECTED.
Proof.
  apply (crawl_graph_is_connected Sample.urllib_sample chain_net "http://a.com/" 10 2 true []).
  vm_compute. discriminate.
Defined.

Lemma crawl_graph_stats_chain :
  let g := build_website_graph Sample.urllib_sample chain_net "http://a.com/" 10 2 true [] in
  ∃ c, (c = STRONGLY_CONNECTED_DIRECTED ∨ c = WEAKLY_CONNECTED_DIRECTED)
       ∧ graph_stats Sample.no_shapes g
         = Ok {| classification := c;
                 stat_nodes := number_of_nodes g;
                 stat_edges := number_of_edges g;
                 average_degree :=
                   Qmake (Z.of_nat (2 * number_of_edges g))
                         (Pos.of_nat (number_of_nodes g)) |}.
Proof.
  apply (crawl_graph_stats Sample.urllib_sample chain_net Sample.no_shapes
           "http://a.com/" 10 2 true []).
  vm_compute. discriminate.
Defined.


Lemma crawl_stops_when_fan :
  let st := crawl Sample.urllib_sample fan_net "http://a.com/" 2 2 true [] in
  q st = [] ∨ pages_crawled st = 2.
Proof.
  apply (crawl_stops_when Sample.urllib_sample fan_net "http://a.com/" 2 2 true []). lia.
Defined.

Lemma crawl_only_grows_chain :
  let st := initial_state (normalize_url Sample.urllib_sample "http://a.com/" EmptyString)
              ([] : list string) in
  let fin := crawl Sample.urllib_sample chain_net "http://a.com/" 10 2 true [] in
  nodes (G st) ⊆ nodes (G fin) ∧ edges (G st) ⊆ edges (G fin)
  ∧ seen st ⊆ seen fin ∧ pages_crawled st ≤ pages_crawled fin
  ∧ enqueued st `prefix_of` enqueued fin.
Proof.
  apply (crawl_only_grows Sample.urllib_sample chain_net "http://a.com/" 10 2 true []).
  apply start_passes_through.
Defined.

Lemma normalize_url_ignores_fragment_sample :
  normalize_url Sample.urllib_sample "http://a.com/p" ("http://a.com/x" +:+ "#" +:+ "top")
  = normalize_url Sample.urllib_sample "http://a.com/p" "http://a.com/x".
Proof.
  apply (normalize_url_ignores_fragment Sample.urllib_sample). reflexivity.
Defined.

Lemma short_label_bounded_long :
  (String.length (short_label Sample.long_url) ≤ 60)%nat
  ∧ String.substring 0 57 (short_label Sample.long_url) = String.substring 0 57 Sample.long_url
  ∧ (short_label Sample.long_url = Sample.long_url ↔ (String.length Sample.long_url ≤ 60)%nat).
Proof. exact (short_label_bounded Sample.long_url). Defined.

Lemma classify_graph_total_on_nodes_single :
  ∃ l, classify_graph Sample.no_shapes (add_node DiGraph "http://a.com") = Ok l.
Proof.
  apply (classify_graph_total_on_nodes Sample.no_shapes (add_node DiGraph "http://a.com")).
  left. vm_compute. discriminate.
Defined.

Lemma web_diver_classify_undirected_only_single :
  directed (add_node UGraph "http://a.com") = false
  ∧ number_of_nodes (add_node UGraph "http://a.com") ≠ 0%nat
  ∧ "Connected Forest Graph"
    ∈ ["Bipartite Connected Graph"; "Tree"; "Connected Forest Graph";
       "Cyclic Graph"; "Acyclical Graph"].
Proof.
  apply (web_diver_classify_undirected_only Sample.no_shapes (add_node UGraph "http://a.com")).
  vm_compute. reflexivity.
Defined.

Lemma web_diver_never_tree_single :
  WebDiver.classify_graph Sample.tree_shapes (add_node UGraph "http://a.com")
  = Ok "Bipartite Connected Graph"
  ∧ WebDiver.classify_graph Sample.tree_shapes (add_node UGraph "http://a.com") ≠ Ok "Tree".
Proof.
  split; [reflexivity|].
  apply (web_diver_never_tree Sample.tree_shapes). intros h _. reflexivity.
Defined.

Lemma web_diver_graph_stats_returns_edge :
  let g := add_edge UGraph "http://a.com" "http://a.com/b" in
  let m := {| WebDiver.metric_nodes := 2; WebDiver.metric_edges := 1;
              WebDiver.metric_average_degree := Qmake 2 2 |} in
  directed g = false ∧ WebDiver.metric_nodes m ≠ 0%nat
  ∧ WebDiver.metric_average_degree m
    = Qmake (Z.of_nat (sum_of_degrees g)) (Pos.of_nat (number_of_nodes g)).
Proof.
  apply (web_diver_graph_stats_returns Sample.tree_shapes
           (add_edge UGraph "http://a.com" "http://a.com/b")
         ) with (c := "Bipartite Connected Graph").
  vm_compute. reflexivity.
Defined.

(** The page for three start URLs, with a rendering step that raises: a
    URL that does not parse, a crawl without page budget, and the chain. *)
Lemma app_never_warns_chain :
  App.on_submit Sample.parses Sample.urllib_sample chain_net Sample.no_shapes
    (λ _, None) "http://[a" 10 2 true []
  = App.CrawlFailed
  ∧ App.on_submit Sample.parses Sample.urllib_sample chain_net Sample.no_shapes
      (λ _, None) "http://a.com/" 0 2 true []
    = App.Crashed NetworkXPointlessConcept
  ∧ ∃ stats view,
      App.on_submit Sample.parses Sample.urllib_sample chain_net Sample.no_shapes
        (λ _, None) "http://a.com/" 10 2 true []
      = App.ViewFailed stats view.
Proof.
  split_and!.
  - destruct (app_never_warns Sample.urllib_sample chain_net "http://[a" 10 2 true []
                Sample.parses Sample.no_shapes (λ _, None)) as (_ & Hraise & _).
    exact (Hraise eq_refl).
  - destruct (app_never_warns Sample.urllib_sample chain_net "http://a.com/" 0 2 true []
                Sample.parses Sample.no_shapes (λ _, None)) as (_ & _ & Hempty & _).
    apply Hempty; reflexivity.
  - destruct (app_never_warns Sample.urllib_sample chain_net "http://a.com/" 10 2 true []
                Sample.parses Sample.no_shapes (λ _, None)) as (_ & _ & _ & Hview).
    destruct Hview as (stats & view & _ & _ & Hout);
      [reflexivity | vm_compute; discriminate |].
    by exists stats, view.
Defined.

End MoreExamples.
